(** * QueueCTL: the claim / execute / retry engine

    A shallow embedding of [storage.py] (the SQLite-backed job store) and of
    [worker.py] (the worker loop), and the properties of the engine proved
    on it.

    Conventions of the embedding.
    - The [jobs] table is a finite map from the [id] primary key to the
      remaining columns; [config] and [workers_meta] are finite maps too.
    - Every method of [Storage] is a computation in the monad [Db]: it
      receives the database, returns it, and either returns a value or
      raises a Python exception.
    - What the code reads from its environment is an argument of the
      operation: the clock ([iso_now()], [int(time.time())]), whether
      [BEGIN IMMEDIATE] finds the database locked, the row the engine picks
      among rows that compare equal under [ORDER BY], and what the shell does
      with a command.
    - Column values have the type the schema and the callers give them:
      integers are [Z], text is [string], the UTF-8 bytes of the Python
      text (SQLite compares TEXT bytewise).  The integers a caller passes
      are assumed to fit SQLite's 64-bit INTEGER; [add_job], which also
      binds an integer read from configured text, checks the range as the
      binding does.
    - The [config] table holds text, as in the code.  [int(...)] of a
      configured text is [py_int]; [float(...)] of the configured backoff
      base is an argument of [worker_loop], and the base a worker runs
      with is a whole number. *)

From Stdlib Require Import ZArith String Ascii Lia.
From Stdlib Require OrderedTypeEx.
From stdpp Require Import base option list sorting gmap fin_maps strings pretty.

Local Open Scope Z_scope.
Local Open Scope string_scope.

(** ** Exceptions and the database monad *)

Inductive exn : Type :=
  | ValueError (msg : string)      (* missing command, int(), float() *)
  | IntegrityError (msg : string)  (* sqlite3: UNIQUE constraint failed *)
  | KeyError (msg : string)        (* retry_dead_job: no such dead job *)
  | OverflowError (msg : string).  (* math.pow, binding a large int *)

Inductive outcome (A : Type) : Type :=
  | Return (a : A)
  | Raise (e : exn).
Arguments Return {A} a.
Arguments Raise {A} e.

(** ** The tables *)

(** One row of [jobs], without its [id] (the key of the map). *)
Record job : Type := Job {
  external_id : option string;
  command : string;
  state : string;
  attempts : Z;
  max_retries : Z;
  created_at : string;
  updated_at : string;
  available_at : Z;
  last_error : option string;
  worker_pid : option Z
}.

Record store : Type := Store {
  jobs : gmap Z job;
  config : gmap string string;
  workers_meta : gmap Z string
}.

(** A fetched [sqlite3.Row]: the id together with the other columns. *)
Definition row : Type := (Z * job)%type.

Definition Db (A : Type) : Type := store → outcome A * store.

Definition ret {A} (a : A) : Db A := λ st, (Return a, st).
Definition raise {A} (e : exn) : Db A := λ st, (Raise e, st).
Definition bind {A B} (m : Db A) (k : A → Db B) : Db B :=
  λ st, match m st with
        | (Return a, st') => k a st'
        | (Raise e, st') => (Raise e, st')
        end.
Definition get_store : Db store := λ st, (Return st, st).
Definition with_jobs (js : gmap Z job) (st : store) : store :=
  Store js (config st) (workers_meta st).
Definition put_jobs (js : gmap Z job) : Db unit :=
  λ st, (Return tt, with_jobs js st).
Definition put_config (c : gmap string string) : Db unit :=
  λ st, (Return tt, Store (jobs st) c (workers_meta st)).
Definition put_workers (w : gmap Z string) : Db unit :=
  λ st, (Return tt, Store (jobs st) (config st) w).

Declare Scope db_scope.
Delimit Scope db_scope with db.
Notation "'let!' x ':=' m 'in' k" := (bind m (λ x, k))
  (at level 10, x name, m at level 100, k at level 200) : db_scope.
Notation "m ';;' k" := (bind m (λ _, k))
  (at level 100, k at level 200, right associativity) : db_scope.
Local Open Scope db_scope.

(** The database a computation leaves, and what it returned. *)
Definition db_after {A} (m : Db A) (st : store) : store := (m st).2.
Definition result_of {A} (m : Db A) (st : store) : outcome A := (m st).1.

(** ** storage.py *)

Module Storage.

(** A database file that does not exist yet. *)
Definition empty_db : store := Store ∅ ∅ ∅.

(** [INSERT OR IGNORE INTO config]. *)
Definition insert_or_ignore (key : string) (value : string)
    (c : gmap string string) : gmap string string :=
  match c !! key with
  | Some _ => c
  | None => <[key := value]> c
  end.

Definition init_schema : Db unit :=
  let! st := get_store in
  put_config (insert_or_ignore "default_max_retries" "3"
               (insert_or_ignore "backoff_base" "2" (config st))).

(** [Storage()] on a fresh file. *)
Definition fresh : store := db_after init_schema empty_db.

(** *** config helpers *)

Definition get_config (key : string) (default : string) : Db string :=
  let! st := get_store in
  ret (match config st !! key with
       | Some value => value
       | None => default
       end).

Definition set_config (key : string) (value : string) : Db unit :=
  let! st := get_store in
  put_config (<[key := value]> (config st)).

(** *** job CRUD *)

(** The [job] dictionary handed to [add_job]; an absent key is [None]. *)
Record submission : Type := Submission {
  sub_command : option string;
  sub_id : option string;
  sub_external_id : option string;
  sub_attempts : option Z;
  sub_max_retries : option Z;
  sub_available_at : option Z
}.

(** Python truth value of [job.get(key)] for a text value. *)
Definition truthy (v : option string) : bool :=
  match v with
  | Some s => negb (bool_decide (s = ""))
  | None => false
  end.

(** [a or b]. *)
Definition py_or (a b : option string) : option string :=
  if truthy a then a else b.

(** [job.get(key, default)]. *)
Definition get_or {A} (v : option A) (default : A) : A :=
  match v with
  | Some x => x
  | None => default
  end.

(** The UNIQUE constraint on [external_id]: NULLs never collide. *)
Definition external_id_taken (e : option string) (js : gmap Z job) : Prop :=
  match e with
  | Some s => map_Exists (λ _ j, external_id j = Some s) js
  | None => False
  end.

#[global] Instance external_id_taken_dec e js :
  Decision (external_id_taken e js).
Proof. destruct e; simpl; apply _. Defined.

(** AUTOINCREMENT: one more than the largest id of the table (the code
    never deletes a row, so this is also the largest id ever used). *)
Definition max_rowid (js : gmap Z job) : Z :=
  foldr Z.max 0 (map_to_list js).*1.

(** [int(text)] for a text: blanks (tab to carriage return, and space), an
    optional sign, decimal digits with single underscores between them,
    blanks; anything else is a [ValueError], and so is a literal of more
    than 4300 digits (CPython's default limit).  In a text that has a
    character outside ASCII Python also takes the other Unicode spaces and
    digits; such a text is read as no literal here, and the properties
    that depend on a refusal are stated for ASCII texts. *)
Definition is_blank (c : ascii) : bool :=
  let n := N_of_ascii c in
  ((9 <=? n) && (n <=? 13) || (n =? 32))%N.

Definition digit_value (c : ascii) : option Z :=
  let n := N_of_ascii c in
  if ((48 <=? n) && (n <=? 57))%N then Some (Z.of_N n - 48)%Z else None.

Fixpoint skip_blanks (s : string) : string :=
  match s with
  | String c s' => if is_blank c then skip_blanks s' else s
  | EmptyString => s
  end.

(** The digits from [s] on: their value, their number and what follows
    them.  [pending] says that a digit must come next (at the start and
    after an underscore). *)
Fixpoint scan_digits (acc : Z) (count : nat) (pending : bool) (s : string)
    : option (Z * nat * string) :=
  match s with
  | String c s' =>
      match digit_value c with
      | Some d => scan_digits (10 * acc + d)%Z (S count) false s'
      | None =>
          if pending then None
          else if bool_decide (c = "_"%char) then scan_digits acc count true s'
          else Some (acc, count, s)
      end
  | EmptyString => if pending then None else Some (acc, count, s)
  end.

Definition py_int (text : string) : option Z :=
  let s := skip_blanks text in
  let '(negative, digits) :=
    match s with
    | String "-" s' => (true, s')
    | String "+" s' => (false, s')
    | _ => (false, s)
    end in
  match scan_digits 0 0 true digits with
  | Some (value, count, rest) =>
      if bool_decide (count ≤ 4300)%nat && bool_decide (skip_blanks rest = "")
      then Some (if negative then - value else value)%Z
      else None
  | None => None
  end.

(** Binding a Python int to a statement: SQLite's INTEGER has 64 bits, a
    larger int raises [OverflowError]. *)
Definition fits_integer (z : Z) : bool :=
  bool_decide (- 2 ^ 63 ≤ z < 2 ^ 63)%Z.

(** [now] is [iso_now()].  [int(...)] of the configured default runs only
    when the job brings no [max_retries]; the three integers are bound
    before the INSERT runs, and the INSERT fails on the UNIQUE constraint
    before anything is written. *)
Definition add_job (now : string) (j : submission) : Db Z :=
  let cmd := sub_command j in
  if negb (truthy cmd) then
    raise (ValueError "job must include 'command'")
  else
    let external_id := py_or (sub_id j) (sub_external_id j) in
    let attempts := get_or (sub_attempts j) 0 in
    let! default_max_retries := get_config "default_max_retries" "3" in
    let! max_retries :=
      match sub_max_retries j with
      | Some m => ret m
      | None =>
          match py_int default_max_retries with
          | Some d => ret d
          | None =>
              (* the message goes on to quote the text *)
              raise (ValueError "invalid literal for int() with base 10")
          end
      end in
    let available_at := get_or (sub_available_at j) 0 in
    let! st := get_store in
    if negb (fits_integer attempts && fits_integer max_retries
             && fits_integer available_at) then
      raise (OverflowError "Python int too large to convert to SQLite INTEGER")
    else if decide (external_id_taken external_id (jobs st)) then
      raise (IntegrityError "UNIQUE constraint failed: jobs.external_id")
    else
      let lastrowid := max_rowid (jobs st) + 1 in
      put_jobs (<[lastrowid :=
                  {| external_id := external_id;
                     command := get_or cmd "";
                     state := "pending";
                     attempts := attempts;
                     max_retries := max_retries;
                     created_at := now;
                     updated_at := now;
                     available_at := available_at;
                     last_error := None;
                     worker_pid := None |}]> (jobs st)) ;;
      ret lastrowid.

Definition get_job (internal_id : Z) : Db (option row) :=
  let! st := get_store in
  ret ((λ j, (internal_id, j)) <$> jobs st !! internal_id).

(** *** atomic claim *)

(** [WHERE state = 'pending' AND available_at <= ?]. *)
Definition eligible (now_ts : Z) (j : job) : bool :=
  bool_decide (state j = "pending")
  && bool_decide (available_at j ≤ now_ts)%Z.

Definition select_eligible (now_ts : Z) (js : gmap Z job) : list row :=
  filter (λ r : row, eligible now_ts r.2 = true) (map_to_list js).

(** [ORDER BY created_at ASC]: text comparison.  The rows that may come
    first are those whose [created_at] is least. *)
Definition created_first (rs : list row) (r : row) : bool :=
  forallb (λ r' : row, (created_at r.2 <=? created_at r'.2)%string) rs.

Definition by_id (r r' : row) : Prop := (r.1 ≤ r'.1)%Z.

#[global] Instance by_id_dec r r' : Decision (by_id r r').
Proof. unfold by_id. apply _. Defined.

(** The candidates, listed by increasing id. *)
Definition first_candidates (now_ts : Z) (js : gmap Z job) : list row :=
  let rs := select_eligible now_ts js in
  merge_sort by_id
    (filter (λ r : row, created_first rs r = true) rs).

(** [LIMIT 1] then [fetchone()].  The query orders by [created_at] alone,
    so among rows with the same least [created_at] the engine returns
    whichever it visits first; [tie] stands for that choice ([0] is the
    candidate with the least id). *)
Definition fetch_first (tie : nat) (now_ts : Z) (js : gmap Z job)
    : option row :=
  let cs := first_candidates now_ts js in
  cs !! (tie `mod` length cs)%nat.

(** [UPDATE jobs SET state='processing', worker_pid=?, updated_at=?]. *)
Definition claim_update (pid : Z) (now : string) (j : job) : job :=
  {| external_id := external_id j;
     command := command j;
     state := "processing";
     attempts := attempts j;
     max_retries := max_retries j;
     created_at := created_at j;
     updated_at := now;
     available_at := available_at j;
     last_error := last_error j;
     worker_pid := Some pid |}.

(** [locked]: [BEGIN IMMEDIATE] raises [sqlite3.OperationalError], which
    the method answers with a rollback and [None].  [now_ts] is
    [int(time.time())], [now] is [iso_now()]. *)
Definition claim_next_job (locked : bool) (tie : nat)
    (now_ts : Z) (now : string) (worker_pid : Z) : Db (option row) :=
  if locked then ret None
  else
    let! st := get_store in
    match fetch_first tie now_ts (jobs st) with
    | None => ret None
    | Some (job_id, _) =>
        put_jobs (alter (claim_update worker_pid now) job_id (jobs st)) ;;
        get_job job_id
    end.

(** [UPDATE jobs SET state=?, attempts=?, last_error=?, updated_at=?,
    available_at=?, worker_pid=NULL]. *)
Definition result_update (st : string) (att : Z) (err : option string)
    (now : string) (avail : Z) (j : job) : job :=
  {| external_id := external_id j;
     command := command j;
     state := st;
     attempts := att;
     max_retries := max_retries j;
     created_at := created_at j;
     updated_at := now;
     available_at := avail;
     last_error := err;
     worker_pid := None |}.

(** The integers bound here are taken to fit SQLite's INTEGER (binding a
    larger one raises [OverflowError] before anything is written); the
    properties of the failure branch of a pass say so where the integer is
    computed ([within_machine_range]). *)
Definition update_job_result (now : string) (job_id : Z) (state : string)
    (attempts : Z) (last_error : option string) (available_at : Z)
    : Db unit :=
  let! st := get_store in
  put_jobs (alter (result_update state attempts last_error now available_at)
              job_id (jobs st)).

Definition get_job_attempts (job_id : Z) : Db Z :=
  let! st := get_store in
  ret (match jobs st !! job_id with
       | Some r => attempts r
       | None => 0
       end).

Definition move_to_dead (now : string) (job_id : Z)
    (last_error : option string) : Db unit :=
  let! current := get_job_attempts job_id in
  update_job_result now job_id "dead" current last_error 0.

(** *** worker meta *)

(** [INSERT OR IGNORE INTO workers_meta]. *)
Definition register_worker (now : string) (pid : Z) : Db unit :=
  let! st := get_store in
  put_workers (match workers_meta st !! pid with
               | Some _ => workers_meta st
               | None => <[pid := now]> (workers_meta st)
               end).

Definition unregister_worker (pid : Z) : Db unit :=
  let! st := get_store in
  put_workers (delete pid (workers_meta st)).

Definition count_workers : Db nat :=
  let! st := get_store in
  ret (size (workers_meta st)).

(** *** listing and status counts *)


(** [ORDER BY created_at DESC]: later text first.  Rows with the same
    [created_at] come in the order in which the engine meets them, which
    the query leaves open; [rank] stands for that order (ids of equal rank
    by increasing id). *)
Definition newer_first (rank : Z → Z) (r r' : row) : Prop :=
  (created_at r'.2 <=? created_at r.2)%string = true ∧
  (created_at r.2 = created_at r'.2 →
   (rank r.1 < rank r'.1)%Z ∨ (rank r.1 = rank r'.1 ∧ (r.1 ≤ r'.1)%Z)).

#[global] Instance newer_first_dec rank r r' :
  Decision (newer_first rank r r').
Proof. unfold newer_first. apply _. Defined.



(** [GROUP BY state] with [COUNT( * )], row by row. *)
Definition count_row (r : row) (counts : gmap string nat) : gmap string nat :=
  <[state r.2 := S (default 0%nat (counts !! state r.2))]> counts.

Definition state_counts : Db (gmap string nat) :=
  let! st := get_store in
  ret (foldr count_row ∅ (map_to_list (jobs st))).

(** *** DLQ helpers *)

(** [UPDATE jobs SET state='pending', attempts=0, updated_at=?,
    available_at=?] with [available_at] bound to 0. *)
Definition retry_update (now : string) (j : job) : job :=
  {| external_id := external_id j;
     command := command j;
     state := "pending";
     attempts := 0;
     max_retries := max_retries j;
     created_at := created_at j;
     updated_at := now;
     available_at := 0;
     last_error := last_error j;
     worker_pid := worker_pid j |}.

Definition retry_dead_job (now : string) (job_id : Z) : Db unit :=
  let! st := get_store in
  match jobs st !! job_id with
  | Some r =>
      if bool_decide (state r = "dead") then
        put_jobs (alter (retry_update now) job_id (jobs st))
      else raise (KeyError "dead job not found")
  | None => raise (KeyError "dead job not found")
  end.


End Storage.

(** ** dlq.py *)

Module Dlq.


Definition retry (now : string) (job_id : Z) : Db unit :=
  Storage.retry_dead_job now job_id.

End Dlq.

(** ** worker.py *)

Module Worker.

(** What [subprocess.run(command, shell=True, ...)] does. *)
Inductive proc_result : Type :=
  | Exited (returncode : Z) (stdout : string)
  | TimeoutExpired (te : string)
  | OtherException (ex : string).

Definition run_command (sh : string → proc_result) (command : string)
    : Z * string :=
  match sh command with
  | Exited returncode stdout => (returncode, stdout)
  | TimeoutExpired te => (-1, "timeout: " +:+ te)
  | OtherException ex => (-1, ex)
  end.

(** The largest finite double, [sys.float_info.max]. *)
Definition DBL_MAX : Z := 2 ^ 1024 - 2 ^ 971.

(** [int(math.pow(backoff_base, attempts))] for an integer-valued base.
    A result too large for a double raises [OverflowError]; a negative
    exponent gives a fraction, which [int] truncates towards zero, and is
    a domain error on base zero.  (From magnitude [2^53] on, the double is
    the nearest representable value rather than the exact power kept here;
    a positive result of that size is far beyond the cap either way.) *)
Definition int_pow (backoff_base attempts : Z) : outcome Z :=
  if bool_decide (0 ≤ attempts)%Z then
    let p := backoff_base ^ attempts in
    if bool_decide (Z.abs p ≤ DBL_MAX)%Z then Return p
    else Raise (OverflowError "math range error")
  else if bool_decide (backoff_base = 0) then
    Raise (ValueError "math domain error")
  else if bool_decide (backoff_base = 1) then Return 1
  else if bool_decide (backoff_base = -1) then
    Return (if Z.even attempts then 1 else -1)
  else Return 0.

(** worker.py, lines 62-64: the bounded backoff. *)
Definition backoff_delay (backoff_base attempts : Z) : outcome Z :=
  match int_pow backoff_base attempts with
  | Return delay =>
      Return (if bool_decide (delay > 3600)%Z then 3600 else delay)
  | Raise e => Raise e
  end.

Definition lift {A} (o : outcome A) : Db A := λ st, (o, st).

(** A byte that continues a character of a UTF-8 text. *)
Definition is_continuation (c : ascii) : bool :=
  let n := N_of_ascii c in ((128 <=? n) && (n <? 192))%N.

(** [text[:n]]: the first [n] characters, each with all its bytes. *)
Fixpoint take_characters (n : nat) (text : string) : string :=
  match text with
  | EmptyString => EmptyString
  | String c text' =>
      if is_continuation c then String c (take_characters n text')
      else match n with
           | O => EmptyString
           | S n' => String c (take_characters n' text')
           end
  end.

(** [f"rc={rc} out={(output or '')[:400]}"]. *)
Definition format_error (rc : Z) (output : string) : string :=
  "rc=" +:+ pretty rc +:+ " out=" +:+ take_characters 400 output.

(** What one pass through the loop body reads from outside. *)
Record tick : Type := Tick {
  locked : bool;          (* BEGIN IMMEDIATE refused *)
  tie : nat;              (* engine's order among equal created_at *)
  claim_ts : Z;           (* int(time.time()) in claim_next_job *)
  claim_now : string;     (* iso_now() in claim_next_job *)
  sh : string → proc_result;
  fail_ts : Z;            (* int(time.time()) when avail is computed *)
  result_now : string     (* iso_now() in update_job_result *)
}.

(** What the pass printed. *)
Inductive report : Type :=
  | Idle
  | Completed (job_id : Z)
  | MovedToDLQ (job_id attempts : Z)
  | FailedRetryIn (job_id delay attempts : Z).

(** worker.py, lines 43-72: the body of [while True] after the stop-flag
    test.  [backoff_base] is what [worker_loop] read from the config when
    it started. *)
Definition worker_iteration (pid backoff_base : Z) (t : tick) : Db report :=
  let! job := Storage.claim_next_job (locked t) (tie t) (claim_ts t)
                (claim_now t) pid in
  match job with
  | None => ret Idle
  | Some (job_id, j) =>
      let command := command j in
      let attempts := attempts j in
      let max_retries := max_retries j in
      let '(rc, output) := run_command (sh t) command in
      if bool_decide (rc = 0) then
        Storage.update_job_result (result_now t) job_id "completed"
          attempts None 0 ;;
        ret (Completed job_id)
      else
        let attempts := attempts + 1 in
        let! delay := lift (backoff_delay backoff_base attempts) in
        let avail := fail_ts t + delay in
        let last_err := format_error rc output in
        if bool_decide (attempts > max_retries)%Z then
          Storage.move_to_dead (result_now t) job_id (Some last_err) ;;
          ret (MovedToDLQ job_id attempts)
        else
          Storage.update_job_result (result_now t) job_id "failed"
            attempts (Some last_err) avail ;;
          ret (FailedRetryIn job_id delay attempts)
  end.

(** [try: ... finally: handler]. *)
Definition finally {A} (m : Db A) (handler : Db unit) : Db A :=
  λ st, match m st with
        | (r, st') =>
            match handler st' with
            | (Return _, st'') => (r, st'')
            | (Raise e, st'') => (Raise e, st'')
            end
        end.

(** The loop over the passes it gets to make: [Some t] is a pass whose
    stop-flag test found no flag, [None] a pass that found the flag.  The
    list ends where the process is interrupted. *)
Fixpoint passes (pid backoff_base : Z) (ts : list (option tick)) : Db unit :=
  match ts with
  | [] => ret tt
  | None :: _ => ret tt
  | Some t :: ts' =>
      worker_iteration pid backoff_base t ;; passes pid backoff_base ts'
  end.

(** [float text] is what Python's [float] makes of a configured text: the
    whole number it denotes, or [None] where it raises [ValueError] (a
    base that is a fraction, an infinity or a nan is not covered: the
    base of a pass is a whole number here).  The read of the base comes
    after the registration and before [try]. *)
Definition worker_loop (float : string → option Z) (started : string)
    (pid : Z) (ts : list (option tick)) : Db unit :=
  Storage.register_worker started pid ;;
  let! text := Storage.get_config "backoff_base" "2" in
  let! backoff_base :=
    if bool_decide (text = "") then ret 2%Z
    else match float text with
         | Some base => ret base
         | None => raise (ValueError "could not convert string to float")
         end in
  finally (passes pid backoff_base ts) (Storage.unregister_worker pid).

End Worker.

(** ** Histories *)

(** Calls of the store's job operations, with any arguments. *)
Inductive call : Type :=
  | AddJob (now : string) (j : Storage.submission)
  | ClaimNextJob (locked : bool) (tie : nat) (now_ts : Z) (now : string)
      (worker_pid : Z)
  | UpdateJobResult (now : string) (job_id : Z) (state : string)
      (attempts : Z) (last_error : option string) (available_at : Z)
  | MoveToDead (now : string) (job_id : Z) (last_error : option string)
  | RetryDeadJob (now : string) (job_id : Z).

Definition perform (c : call) (st : store) : store :=
  match c with
  | AddJob now j => db_after (Storage.add_job now j) st
  | ClaimNextJob locked tie now_ts now pid =>
      db_after (Storage.claim_next_job locked tie now_ts now pid) st
  | UpdateJobResult now job_id state attempts last_error available_at =>
      db_after (Storage.update_job_result now job_id state attempts
                  last_error available_at) st
  | MoveToDead now job_id last_error =>
      db_after (Storage.move_to_dead now job_id last_error) st
  | RetryDeadJob now job_id => db_after (Storage.retry_dead_job now job_id) st
  end.

Definition perform_all (cs : list call) (st : store) : store :=
  foldl (λ s c, perform c s) st cs.

(** What happens to the queue when it runs: clients enqueue, workers make
    passes through their loop body, an operator retries dead jobs. *)
Inductive event : Type :=
  | Enqueue (now : string) (j : Storage.submission)
  | Pass (pid backoff_base : Z) (t : Worker.tick)
  | DlqRetry (now : string) (job_id : Z).

Definition occur (e : event) (st : store) : store :=
  match e with
  | Enqueue now j => db_after (Storage.add_job now j) st
  | Pass pid backoff_base t =>
      db_after (Worker.worker_iteration pid backoff_base t) st
  | DlqRetry now job_id => db_after (Storage.retry_dead_job now job_id) st
  end.

Definition occur_all (es : list event) (st : store) : store :=
  foldl (λ s e, occur e s) st es.

(** ** Stores and rows the statements speak of *)

(** The database after [claim_next_job] has claimed job [id]. *)
Definition claimed_store (pid : Z) (now : string) (id : Z) (st : store)
    : store :=
  with_jobs (alter (Storage.claim_update pid now) id (jobs st)) st.

(** The text configured under a key, or the default the caller gives. *)
Definition configured (key default : string) (st : store) : string :=
  match config st !! key with
  | Some value => value
  | None => default
  end.

(** The [max_retries] a submission gets: its own, or the configured
    default read as an integer; [None] when that text is no integer. *)
Definition resolved_max_retries (s : Storage.submission) (st : store)
    : option Z :=
  match Storage.sub_max_retries s with
  | Some m => Some m
  | None => Storage.py_int (configured "default_max_retries" "3" st)
  end.

(** The external id a submission asks for: its [id] unless that is absent
    or empty, else its [external_id]. *)
Definition requested_external_id (s : Storage.submission) : option string :=
  match Storage.sub_id s with
  | Some e => if bool_decide (e = "") then Storage.sub_external_id s
              else Some e
  | None => Storage.sub_external_id s
  end.

(** The integers of a submission fit SQLite's INTEGER. *)
Definition integers_fit (s : Storage.submission) (max_retries : Z) : Prop :=
  (- 2 ^ 63 ≤ Storage.get_or (Storage.sub_attempts s) 0 < 2 ^ 63)%Z ∧
  (- 2 ^ 63 ≤ max_retries < 2 ^ 63)%Z ∧
  (- 2 ^ 63 ≤ Storage.get_or (Storage.sub_available_at s) 0 < 2 ^ 63)%Z.

(** A text all of whose characters are ASCII. *)
Fixpoint all_ascii (text : string) : bool :=
  match text with
  | EmptyString => true
  | String c text' => (N_of_ascii c <? 128)%N && all_ascii text'
  end.

(** The row [add_job] inserts. *)
Definition inserted_row (now : string) (s : Storage.submission)
    (max_retries : Z) : job :=
  {| external_id := requested_external_id s;
     command := Storage.get_or (Storage.sub_command s) "";
     state := "pending";
     attempts := Storage.get_or (Storage.sub_attempts s) 0;
     max_retries := max_retries;
     created_at := now;
     updated_at := now;
     available_at := Storage.get_or (Storage.sub_available_at s) 0;
     last_error := None;
     worker_pid := None |}.

(** What the claim inside a pass returned. *)
Definition pass_claims (pid : Z) (t : Worker.tick) (st : store)
    (id : Z) (j : job) : Prop :=
  result_of (Storage.claim_next_job (Worker.locked t) (Worker.tie t)
               (Worker.claim_ts t) (Worker.claim_now t) pid) st
  = Return (Some (id, j)).

(** ** Example databases *)

(** Scenario A of the specification: one job whose command exits 1 and
    which may not be retried. *)
Definition scenario_A_job : Storage.submission :=
  Storage.Submission (Some "exit 1") None None None (Some 0) None.

Definition scenario_A_enqueued : store :=
  db_after (Storage.add_job "2024-01-01T00:00:00.000001Z" scenario_A_job)
    Storage.fresh.

Definition scenario_A_tick : Worker.tick :=
  Worker.Tick false 0 1704067201 "2024-01-01T00:00:01.000001Z"
    (λ _, Worker.Exited 1 "") 1704067202 "2024-01-01T00:00:02.000001Z".

Definition scenario_A_resolved : store :=
  db_after (Worker.worker_iteration 4242 2 scenario_A_tick)
    scenario_A_enqueued.

(** A database whose configured default for [max_retries] is no number,
    and one whose default is a number beyond SQLite's INTEGER. *)
Definition misconfigured_store : store :=
  db_after (Storage.set_config "default_max_retries" "abc") Storage.fresh.

Definition oversized_default_store : store :=
  db_after (Storage.set_config "default_max_retries" "9223372036854775808")
    Storage.fresh.

(** Scenario C: a job submitted under the external id [x]. *)
Definition scenario_C_job : Storage.submission :=
  Storage.Submission (Some "true") None (Some "x") None None None.

Definition scenario_C_enqueued : store :=
  db_after (Storage.add_job "2024-01-01T00:00:00.000001Z" scenario_C_job)
    Storage.fresh.

(** A pass over scenario C's job in which the command exits with code 2. *)
Definition failing_tick : Worker.tick :=
  Worker.Tick false 0 1704067201 "2024-01-01T00:00:01.000001Z"
    (λ _, Worker.Exited 2 "boom") 1704067202 "2024-01-01T00:00:02.000001Z".

(** Two jobs enqueued at the same instant, the first one to run no earlier
    than five seconds later. *)
Definition tied_store : store :=
  db_after (Storage.add_job "2024-01-01T00:00:00.000001Z"
              (Storage.Submission (Some "echo b") None None None None None))
    (db_after (Storage.add_job "2024-01-01T00:00:00.000001Z"
                 (Storage.Submission (Some "echo a") None None None None
                    (Some 1704067205)))
       Storage.fresh).

(** Scenario C's job after a pass in which its command failed: [failed],
    with two retries left. *)
Definition failed_store : store :=
  db_after (Worker.worker_iteration 4242 2 failing_tick) scenario_C_enqueued.

(** A later pass of another worker, and a later submission. *)
Definition later_tick : Worker.tick :=
  Worker.Tick false 0 1704070000 "2024-01-01T00:46:40.000001Z"
    (λ _, Worker.Exited 0 "") 1704070001 "2024-01-01T00:46:41.000001Z".

Definition later_job : Storage.submission :=
  Storage.Submission (Some "true") None None None None None.

(** A history that ends with a dead job that arrived with two attempts. *)
Definition dead_with_attempts : list event :=
  [Enqueue "2024-01-01T00:00:00.000001Z"
     (Storage.Submission (Some "exit 1") None None (Some 2) (Some 0) None);
   Pass 4242 2 scenario_A_tick].

(** ** Conditions on histories *)

(** A call of [update_job_result] that writes the state [processing]. *)
Definition writes_processing (c : call) : Prop :=
  match c with
  | UpdateJobResult _ _ s _ _ _ => s = "processing"
  | _ => False
  end.

(** A submission whose [attempts], when supplied, is not negative. *)
Definition attempts_not_negative (e : event) : Prop :=
  match e with
  | Enqueue _ s => (0 ≤ Storage.get_or (Storage.sub_attempts s) 0)%Z
  | _ => True
  end.

(** The dead-letter retry of job [id]. *)
Definition retries (id : Z) (e : event) : Prop :=
  match e with
  | DlqRetry _ id' => id' = id
  | _ => False
  end.

(** ** Invariants *)

(** Only a processing job has an owner. *)
Definition owner_only_if_processing (st : store) : Prop :=
  ∀ id j, jobs st !! id = Some j → worker_pid j ≠ None →
          state j = "processing".

(** Every processing job has an owner. *)
Definition processing_only_if_owned (st : store) : Prop :=
  ∀ id j, jobs st !! id = Some j → state j = "processing" →
          worker_pid j ≠ None.

Definition attempts_never_negative (st : store) : Prop :=
  ∀ id j, jobs st !! id = Some j → (0 ≤ attempts j)%Z.

(** ** Notions the further properties speak of *)

(** No two jobs carry the same external id. *)
Definition unique_external_ids (st : store) : Prop :=
  ∀ i i' j j' e,
    jobs st !! i = Some j → jobs st !! i' = Some j' →
    external_id j = Some e → external_id j' = Some e → i = i'.

(** The columns of a job that say what the job is. *)
Definition same_identity (j j' : job) : Prop :=
  external_id j' = external_id j ∧ command j' = command j ∧
  max_retries j' = max_retries j ∧ created_at j' = created_at j.

(** A call of [claim_next_job]. *)
Definition is_claim (c : call) : Prop :=
  match c with
  | ClaimNextJob _ _ _ _ _ => True
  | _ => False
  end.

(** No two eligible jobs were created at the same instant. *)
Definition distinct_created_at (now_ts : Z) (js : gmap Z job) : Prop :=
  ∀ i i' j j',
    js !! i = Some j → js !! i' = Some j' →
    Storage.eligible now_ts j = true → Storage.eligible now_ts j' = true →
    created_at j = created_at j' → i = i'.

(** The number of jobs in a given state. *)
Definition jobs_in_state (s : string) (st : store) : nat :=
  length (filter (λ r : row, state r.2 = s) (map_to_list (jobs st))).

(** The sum of the counts of a status dictionary. *)
Definition total_count (counts : gmap string nat) : nat :=
  map_fold (λ _ n acc, (n + acc)%nat) 0%nat counts.

(** A database with a configured base and one registered worker. *)
Definition registered_store : store :=
  db_after (Storage.register_worker "2024-01-01T00:00:00.000001Z" 4242)
    scenario_C_enqueued.

Definition tuned_store : store :=
  db_after (Storage.set_config "backoff_base" "3") registered_store.






(** Two jobs enqueued five seconds apart, both free to run at once. *)
Definition staggered_store : store :=
  db_after (Storage.add_job "2024-01-01T00:00:05.000001Z"
              (Storage.Submission (Some "echo b") None None None None None))
    (db_after (Storage.add_job "2024-01-01T00:00:00.000001Z"
                 (Storage.Submission (Some "echo a") None None None None
                    None))
       Storage.fresh).

(** A database whose configured base is no number. *)
Definition unparsable_base_store : store :=
  db_after (Storage.set_config "backoff_base" "fast") scenario_C_enqueued.

(** * Properties *)

(** ** The monad and the tables *)

Lemma store_eta st : Store (jobs st) (config st) (workers_meta st) = st.
Proof. by destruct st. Qed.



Lemma alter_present (f : job → job) (js : gmap Z job) i j :
  js !! i = Some j → alter f i js = <[i := f j]> js.
Proof.
  intros Hi. apply map_eq. intros k.
  destruct (decide (i = k)) as [->|Hne].
  - by rewrite lookup_alter_eq, lookup_insert_eq, Hi.
  - by rewrite lookup_alter_ne, lookup_insert_ne.
Qed.

(** ** Text order on [created_at] *)

Section text_order.

Lemma leb_refl s : (s <=? s)%string = true.
Proof.
  pose proof (proj2 (OrderedTypeEx.String_as_OT.cmp_eq s s) eq_refl) as H.
  unfold OrderedTypeEx.String_as_OT.cmp in H.
  unfold String.leb. by rewrite H.
Qed.

Lemma leb_cases s1 s2 :
  (s1 <=? s2)%string = true ↔ s1 = s2 ∨ OrderedTypeEx.String_as_OT.lt s1 s2.
Proof.
  unfold String.leb.
  destruct (s1 ?= s2)%string eqn:Hc.
  - apply OrderedTypeEx.String_as_OT.cmp_eq in Hc. tauto.
  - apply OrderedTypeEx.String_as_OT.cmp_lt in Hc. tauto.
  - split; [done|]. intros [->|Hlt].
    + pose proof (leb_refl s2) as H. unfold String.leb in H.
      by rewrite Hc in H.
    + apply OrderedTypeEx.String_as_OT.cmp_lt in Hlt.
      unfold OrderedTypeEx.String_as_OT.cmp in Hlt. congruence.
Qed.

Lemma leb_trans s1 s2 s3 :
  (s1 <=? s2)%string = true → (s2 <=? s3)%string = true →
  (s1 <=? s3)%string = true.
Proof.
  rewrite !leb_cases. intros [->|H12] [->|H23]; auto.
  right. eapply OrderedTypeEx.String_as_OT.lt_trans; eauto.
Qed.

(** A non-empty list of rows has a row created first. *)
Lemma created_first_exists (rs : list row) :
  rs ≠ [] → ∃ r, r ∈ rs ∧ Storage.created_first rs r = true.
Proof.
  induction rs as [|x rs IH]; [done|]. intros _.
  destruct rs as [|y rs'].
  { exists x. split; [left|]. simpl. by rewrite leb_refl. }
  destruct IH as (m & Hm & Hmin); [done|].
  destruct (String.leb_total (created_at x.2) (created_at m.2)) as [Hx|Hx].
  - exists x. split; [left|].
    unfold Storage.created_first in *. rewrite forallb_forall in *.
    intros r [<-|Hr]; [apply leb_refl|].
    eapply leb_trans; [exact Hx|]. by apply Hmin.
  - exists m. split; [by right|].
    unfold Storage.created_first in *. rewrite forallb_forall in *.
    intros r [<-|Hr]; [done|]. by apply Hmin.
Qed.

End text_order.

(** ** The claim query *)

Section claim_query.

Implicit Types (js : gmap Z job) (r : row) (j : job).

Lemma eligible_spec now_ts j :
  Storage.eligible now_ts j = true ↔
  state j = "pending" ∧ (available_at j ≤ now_ts)%Z.
Proof.
  unfold Storage.eligible.
  by rewrite andb_true_iff, !bool_decide_eq_true.
Qed.

Lemma elem_of_select_eligible now_ts js r :
  r ∈ Storage.select_eligible now_ts js ↔
  js !! r.1 = Some r.2 ∧ Storage.eligible now_ts r.2 = true.
Proof.
  unfold Storage.select_eligible.
  rewrite list_elem_of_filter.
  pose proof (elem_of_map_to_list' js r). tauto.
Qed.

Lemma elem_of_first_candidates now_ts js r :
  r ∈ Storage.first_candidates now_ts js ↔
  r ∈ Storage.select_eligible now_ts js ∧
  Storage.created_first (Storage.select_eligible now_ts js) r = true.
Proof.
  unfold Storage.first_candidates; cbv zeta.
  rewrite merge_sort_Permutation, list_elem_of_filter. tauto.
Qed.

(** The row fetched is eligible and no eligible row was created before. *)
Lemma fetch_first_Some tie now_ts js id j :
  Storage.fetch_first tie now_ts js = Some (id, j) →
  js !! id = Some j ∧ Storage.eligible now_ts j = true ∧
  ∀ id' j', js !! id' = Some j' → Storage.eligible now_ts j' = true →
            (created_at j <=? created_at j')%string = true.
Proof.
  unfold Storage.fetch_first; cbv zeta. intros Hf.
  apply list_elem_of_lookup_2, elem_of_first_candidates in Hf.
  destruct Hf as [Hsel Hmin].
  apply elem_of_select_eligible in Hsel as [Hlook Hel]. simpl in *.
  split_and!; [done..|].
  intros id' j' Hlook' Hel'.
  unfold Storage.created_first in Hmin. rewrite forallb_forall in Hmin.
  apply (Hmin (id', j')).
  apply list_elem_of_In, elem_of_select_eligible. by simpl.
Qed.

(** Nothing is fetched only when no row is eligible. *)
Lemma fetch_first_None tie now_ts js :
  Storage.fetch_first tie now_ts js = None →
  ∀ id j, js !! id = Some j → Storage.eligible now_ts j = false.
Proof.
  unfold Storage.fetch_first; cbv zeta. intros Hf id j Hlook.
  destruct (Storage.eligible now_ts j) eqn:Hel; [exfalso|done].
  assert (Storage.select_eligible now_ts js ≠ []) as Hne.
  { intros Hnil.
    assert ((id, j) ∈ Storage.select_eligible now_ts js) as Hin
      by by apply elem_of_select_eligible.
    rewrite Hnil in Hin. by apply not_elem_of_nil in Hin. }
  destruct (created_first_exists _ Hne) as (m & Hm & Hmin).
  assert (m ∈ Storage.first_candidates now_ts js) as Hc
    by by apply elem_of_first_candidates.
  apply lookup_ge_None_1 in Hf.
  destruct (Storage.first_candidates now_ts js) as [|c cs] eqn:Hcs.
  { by apply not_elem_of_nil in Hc. }
  pose proof (Nat.mod_upper_bound tie (length (c :: cs))) as Hlt.
  simpl in *. lia.
Qed.

(** [claim_next_job], case by case. *)
Lemma claim_next_job_run locked tie now_ts now pid st :
  Storage.claim_next_job locked tie now_ts now pid st =
  if locked then (Return None, st)
  else match Storage.fetch_first tie now_ts (jobs st) with
       | None => (Return None, st)
       | Some (id, j) =>
           (Return (Some (id, Storage.claim_update pid now j)),
            claimed_store pid now id st)
       end.
Proof.
  unfold Storage.claim_next_job. destruct locked; [done|].
  unfold bind at 1. simpl.
  destruct (Storage.fetch_first tie now_ts (jobs st)) as [[id j]|] eqn:Hf;
    [|done].
  apply fetch_first_Some in Hf as (Hlook & _).
  unfold put_jobs, Storage.get_job, get_store, ret, claimed_store.
  repeat (unfold bind; simpl). by rewrite lookup_alter_eq, Hlook.
Qed.

End claim_query.

(** ** The store operations, run *)

Section store_runs.

Implicit Types (st : store) (j : job).

Lemma update_job_result_run now id s att err avail st :
  Storage.update_job_result now id s att err avail st =
  (Return tt,
   with_jobs (alter (Storage.result_update s att err now avail) id (jobs st))
     st).
Proof. reflexivity. Qed.


Lemma move_to_dead_run now id err st :
  Storage.move_to_dead now id err st =
  (Return tt,
   with_jobs (alter (Storage.result_update "dead"
                       (match jobs st !! id with
                        | Some r => attempts r
                        | None => 0
                        end) err now 0) id (jobs st)) st).
Proof. reflexivity. Qed.

Lemma retry_dead_job_run now id st :
  Storage.retry_dead_job now id st =
  match jobs st !! id with
  | Some r =>
      if bool_decide (state r = "dead")
      then (Return tt,
            with_jobs (alter (Storage.retry_update now) id (jobs st)) st)
      else (Raise (KeyError "dead job not found"), st)
  | None => (Raise (KeyError "dead job not found"), st)
  end.
Proof.
  unfold Storage.retry_dead_job, bind, get_store. simpl.
  destruct (jobs st !! id) as [r|]; [|done].
  by destruct (bool_decide (state r = "dead")).
Qed.

Lemma max_rowid_bound (js : gmap Z job) i j :
  js !! i = Some j → (i ≤ Storage.max_rowid js)%Z.
Proof.
  intros Hi. unfold Storage.max_rowid.
  apply elem_of_map_to_list in Hi.
  induction (map_to_list js) as [|[k x] l IH]; [by apply not_elem_of_nil in Hi|].
  rewrite fmap_cons. cbn [foldr fst].
  apply elem_of_cons in Hi as [Heq|Hin].
  - inversion Heq; subst. lia.
  - specialize (IH Hin). lia.
Qed.

Lemma next_rowid_fresh (js : gmap Z job) :
  js !! (Storage.max_rowid js + 1)%Z = None.
Proof.
  destruct (js !! (Storage.max_rowid js + 1)%Z) as [j|] eqn:Hj; [|done].
  apply max_rowid_bound in Hj. lia.
Qed.

Lemma py_or_requested s :
  Storage.py_or (Storage.sub_id s) (Storage.sub_external_id s)
  = requested_external_id s.
Proof.
  unfold Storage.py_or, requested_external_id, Storage.truthy.
  destruct (Storage.sub_id s) as [e|]; [|done].
  by destruct (bool_decide (e = "")).
Qed.

Lemma add_job_run now s st :
  Storage.add_job now s st =
  if negb (Storage.truthy (Storage.sub_command s)) then
    (Raise (ValueError "job must include 'command'"), st)
  else
    match resolved_max_retries s st with
    | None => (Raise (ValueError "invalid literal for int() with base 10"), st)
    | Some m =>
        if negb (Storage.fits_integer
                   (Storage.get_or (Storage.sub_attempts s) 0)
                 && Storage.fits_integer m
                 && Storage.fits_integer
                      (Storage.get_or (Storage.sub_available_at s) 0)) then
          (Raise (OverflowError
                    "Python int too large to convert to SQLite INTEGER"), st)
        else if decide (Storage.external_id_taken (requested_external_id s)
                          (jobs st)) then
          (Raise (IntegrityError "UNIQUE constraint failed: jobs.external_id"),
           st)
        else
          (Return (Storage.max_rowid (jobs st) + 1)%Z,
           with_jobs (<[(Storage.max_rowid (jobs st) + 1)%Z :=
                        inserted_row now s m]> (jobs st)) st)
    end.
Proof.
  unfold Storage.add_job, resolved_max_retries, configured.
  destruct (negb (Storage.truthy (Storage.sub_command s))); [done|].
  rewrite py_or_requested.
  unfold bind at 1. unfold Storage.get_config, bind, get_store, ret. simpl.
  destruct (Storage.sub_max_retries s) as [m|]; simpl.
  - destruct (negb _); [done|]. by destruct (decide _).
  - destruct (Storage.py_int _) as [d|]; [|done]. simpl.
    destruct (negb _); [done|]. by destruct (decide _).
Qed.

(** [py_int] on some texts: blanks around the literal, a sign, single
    underscores; no blank after the sign, no doubled or dangling
    underscore, no fraction, no empty literal. *)
Lemma py_int_reads_literals :
  Storage.py_int "3" = Some 3%Z ∧
  Storage.py_int "  -1_000 " = Some (-1000)%Z ∧
  Storage.py_int "+0042" = Some 42%Z ∧
  Storage.py_int "" = None ∧
  Storage.py_int "+ 3" = None ∧
  Storage.py_int "1__0" = None ∧
  Storage.py_int "1_" = None ∧
  Storage.py_int "3.0" = None ∧
  Storage.py_int "abc" = None.
Proof. vm_compute. by split_and!. Qed.

End store_runs.

(** ** Store operations on their own *)





Lemma truthy_false_iff v :
  Storage.truthy v = false ↔ v = None ∨ v = Some "".
Proof.
  destruct v as [s|]; simpl.
  - rewrite negb_false_iff, bool_decide_eq_true. split.
    + intros ->. by right.
    + intros [?|[= ->]]; done.
  - split; [by left|done].
Qed.

(** C6, as the code has it.  [add_job] raises [ValueError] (InvalidJob)
    when [command] is absent or empty.  With a command, and when the job
    brings no [max_retries], it raises [ValueError] as well if the
    configured default is not an integer literal.  When [max_retries] is
    supplied or the configured default is an integer literal, and the
    integers fit SQLite's INTEGER, it raises [IntegrityError]
    (DuplicateExternalId) if the external id asked for ([id] unless absent
    or empty, else [external_id]) is already in the table, and otherwise
    inserts one row under a new id and returns that id; the row is
    [pending], carries the external id asked for, the caller's [attempts]
    or 0, the [max_retries] supplied or configured, and the caller's
    [available_at] or 0.  Whenever it raises, the database, and so its job
    count, is unchanged. *)
Theorem add_job_outcomes now s st :
  (Storage.sub_command s = None ∨ Storage.sub_command s = Some "" →
     Storage.add_job now s st
       = (Raise (ValueError "job must include 'command'"), st)) ∧
  (∀ cmd,
     Storage.sub_command s = Some cmd → cmd ≠ "" →
     Storage.sub_max_retries s = None →
     all_ascii (configured "default_max_retries" "3" st) = true →
     Storage.py_int (configured "default_max_retries" "3" st) = None →
     ∃ msg, Storage.add_job now s st = (Raise (ValueError msg), st)) ∧
  (∀ cmd m e i j,
     Storage.sub_command s = Some cmd → cmd ≠ "" →
     Storage.sub_max_retries s = Some m ∨
     (Storage.sub_max_retries s = None ∧
      Storage.py_int (configured "default_max_retries" "3" st) = Some m) →
     integers_fit s m →
     requested_external_id s = Some e →
     jobs st !! i = Some j → external_id j = Some e →
     Storage.add_job now s st
       = (Raise (IntegrityError "UNIQUE constraint failed: jobs.external_id"),
          st)) ∧
  (∀ cmd m,
     Storage.sub_command s = Some cmd → cmd ≠ "" →
     Storage.sub_max_retries s = Some m ∨
     (Storage.sub_max_retries s = None ∧
      Storage.py_int (configured "default_max_retries" "3" st) = Some m) →
     integers_fit s m →
     (∀ e i j, requested_external_id s = Some e →
               jobs st !! i = Some j → external_id j ≠ Some e) →
     ∃ id j,
       Storage.add_job now s st
         = (Return id, with_jobs (<[id := j]> (jobs st)) st) ∧
       jobs st !! id = None ∧
       size (jobs (db_after (Storage.add_job now s) st)) = S (size (jobs st)) ∧
       external_id j = requested_external_id s ∧
       command j = cmd ∧
       state j = "pending" ∧
       attempts j = match Storage.sub_attempts s with
                    | Some a => a
                    | None => 0
                    end ∧
       max_retries j = m ∧
       available_at j = match Storage.sub_available_at s with
                        | Some a => a
                        | None => 0
                        end ∧
       worker_pid j = None).
Proof.
  assert (∀ cmd, Storage.sub_command s = Some cmd → cmd ≠ "" →
                 negb (Storage.truthy (Storage.sub_command s)) = false)
    as Htruthy.
  { intros cmd -> Hne. simpl. by rewrite bool_decide_eq_false_2. }
  assert (∀ m, Storage.sub_max_retries s = Some m ∨
               (Storage.sub_max_retries s = None ∧
                Storage.py_int (configured "default_max_retries" "3" st)
                = Some m) →
               resolved_max_retries s st = Some m) as Hresolved.
  { unfold resolved_max_retries. by intros m [->|[-> ->]]. }
  assert (∀ m, integers_fit s m →
               negb (Storage.fits_integer
                       (Storage.get_or (Storage.sub_attempts s) 0)
                     && Storage.fits_integer m
                     && Storage.fits_integer
                          (Storage.get_or (Storage.sub_available_at s) 0))
               = false) as Hfit.
  { intros m (Ha & Hm & Hv). unfold Storage.fits_integer.
    by rewrite !bool_decide_eq_true_2. }
  split_and!.
  - intros Hcmd. apply truthy_false_iff in Hcmd.
    by rewrite add_job_run, Hcmd.
  - intros cmd Hcmd Hne Hnone _ Hparse. eexists.
    rewrite add_job_run, (Htruthy cmd Hcmd Hne).
    unfold resolved_max_retries. by rewrite Hnone, Hparse.
  - intros cmd m e i j Hcmd Hne Hm Hints He Hi Hext.
    rewrite add_job_run, (Htruthy cmd Hcmd Hne), (Hresolved m Hm),
      (Hfit m Hints).
    rewrite He, decide_True; [done|]. simpl. by exists i, j.
  - intros cmd m Hcmd Hne Hm Hints Hfree.
    assert (¬ Storage.external_id_taken (requested_external_id s) (jobs st))
      as Hnot.
    { destruct (requested_external_id s) as [e|] eqn:He; simpl; [|tauto].
      intros (i & j & Hi & Hext). by eapply (Hfree e i j). }
    assert (Storage.add_job now s st
            = (Return (Storage.max_rowid (jobs st) + 1)%Z,
               with_jobs (<[(Storage.max_rowid (jobs st) + 1)%Z :=
                            inserted_row now s m]> (jobs st)) st)) as Hrun.
    { rewrite add_job_run, (Htruthy cmd Hcmd Hne), (Hresolved m Hm),
        (Hfit m Hints).
      by rewrite decide_False. }
    exists (Storage.max_rowid (jobs st) + 1)%Z, (inserted_row now s m).
    split_and!; try done.
    + apply next_rowid_fresh.
    + unfold db_after. rewrite Hrun. simpl.
      apply map_size_insert_None, next_rowid_fresh.
    + simpl. by rewrite Hcmd.
Qed.

Lemma add_job_outcomes_witness :
  Storage.add_job "t" (Storage.Submission (Some "") None None None None None)
      scenario_C_enqueued
    = (Raise (ValueError "job must include 'command'"),
       scenario_C_enqueued) ∧
  (∃ msg, Storage.add_job "t" later_job misconfigured_store
          = (Raise (ValueError msg), misconfigured_store)) ∧
  Storage.add_job "t" scenario_C_job scenario_C_enqueued
    = (Raise (IntegrityError "UNIQUE constraint failed: jobs.external_id"),
       scenario_C_enqueued) ∧
  ∃ id j,
    Storage.add_job "t" scenario_C_job Storage.fresh
      = (Return id, with_jobs (<[id := j]> (jobs Storage.fresh))
                      Storage.fresh) ∧
    external_id j = Some "x" ∧
    state j = "pending" ∧ attempts j = 0 ∧ max_retries j = 3 ∧
    available_at j = 0.
Proof.
  split_and!.
  - apply (proj1 (add_job_outcomes "t"
             (Storage.Submission (Some "") None None None None None)
             scenario_C_enqueued)).
    by right.
  - apply (proj1 (proj2 (add_job_outcomes "t" later_job misconfigured_store))
             "true"); first [discriminate | vm_compute; reflexivity].
  - apply (proj1 (proj2 (proj2 (add_job_outcomes "t" scenario_C_job
                                  scenario_C_enqueued)))
             "true" 3 "x" 1
             (inserted_row "2024-01-01T00:00:00.000001Z" scenario_C_job 3)).
    + reflexivity.
    + discriminate.
    + right. split; vm_compute; reflexivity.
    + unfold integers_fit. vm_compute. intuition discriminate.
    + reflexivity.
    + vm_compute. reflexivity.
    + reflexivity.
  - destruct (proj2 (proj2 (proj2 (add_job_outcomes "t" scenario_C_job
                                     Storage.fresh))) "true" 3)
      as (id & j & Hrun & _ & _ & Hext & _ & Hst & Hatt & Hmax & Hav & _).
    + reflexivity.
    + discriminate.
    + right. split; vm_compute; reflexivity.
    + unfold integers_fit. vm_compute. intuition discriminate.
    + intros e i j. vm_compute. discriminate.
    + exists id, j. split_and!; try done.
Defined.

(** C6 as stated fails: with a command, no [max_retries] and no external
    id, [add_job] still raises, and inserts nothing, when the configured
    default is not an integer literal ([ValueError]) or is beyond SQLite's
    INTEGER ([OverflowError]). *)
Lemma add_job_fails_on_configured_default :
  (∃ msg, Storage.add_job "2024-01-01T00:00:00.000001Z" later_job
            misconfigured_store
          = (Raise (ValueError msg), misconfigured_store)) ∧
  Storage.add_job "2024-01-01T00:00:00.000001Z" later_job
      oversized_default_store
    = (Raise (OverflowError
                "Python int too large to convert to SQLite INTEGER"),
       oversized_default_store).
Proof. split; [eexists|]; vm_compute; reflexivity. Qed.

(** ** One pass of the worker loop *)

Section worker_pass.

Implicit Types (st : store) (j : job) (t : Worker.tick).

(** A claim that returns a row returns a formerly pending row, now marked
    as processing and owned, and stores it under its id. *)
Lemma pass_claims_inv pid t st id j :
  pass_claims pid t st id j →
  ∃ j0, jobs st !! id = Some j0 ∧
        Storage.eligible (Worker.claim_ts t) j0 = true ∧
        j = Storage.claim_update pid (Worker.claim_now t) j0 ∧
        Storage.claim_next_job (Worker.locked t) (Worker.tie t)
          (Worker.claim_ts t) (Worker.claim_now t) pid st
        = (Return (Some (id, j)),
           with_jobs (<[id := j]> (jobs st)) st).
Proof.
  unfold pass_claims, result_of. rewrite claim_next_job_run.
  destruct (Worker.locked t); [done|].
  destruct (Storage.fetch_first _ _ _) as [[id' j0]|] eqn:Hf; [|done].
  simpl. intros [= <- <-].
  apply fetch_first_Some in Hf as (Hlook & Hel & _).
  exists j0. split_and!; try done.
  unfold claimed_store. by rewrite (alter_present _ _ _ _ Hlook).
Qed.

(** The pass after a successful claim, branch by branch. *)
Lemma worker_iteration_claimed pid base t st id j :
  pass_claims pid t st id j →
  Worker.worker_iteration pid base t st =
  let st1 := with_jobs (<[id := j]> (jobs st)) st in
  let resolved s att err avail :=
    with_jobs (<[id := Storage.result_update s att err
                         (Worker.result_now t) avail j]> (jobs st)) st in
  let '(rc, output) := Worker.run_command (Worker.sh t) (command j) in
  if bool_decide (rc = 0) then
    (Return (Worker.Completed id), resolved "completed" (attempts j) None 0)
  else
    match Worker.backoff_delay base (attempts j + 1) with
    | Raise e => (Raise e, st1)
    | Return delay =>
        let last_err := Some (Worker.format_error rc output) in
        if bool_decide (attempts j + 1 > max_retries j)%Z then
          (Return (Worker.MovedToDLQ id (attempts j + 1)),
           resolved "dead" (attempts j) last_err 0)
        else
          (Return (Worker.FailedRetryIn id delay (attempts j + 1)),
           resolved "failed" (attempts j + 1) last_err
             (Worker.fail_ts t + delay))
    end.
Proof.
  intros Hc. apply pass_claims_inv in Hc as (j0 & Hj0 & _ & _ & Hrun).
  unfold Worker.worker_iteration. unfold bind at 1. rewrite Hrun.
  cbv zeta. destruct (Worker.run_command _ _) as [rc output].
  assert (∀ f, with_jobs (alter f id (<[id := j]> (jobs st)))
                 (with_jobs (<[id := j]> (jobs st)) st)
               = with_jobs (<[id := f j]> (jobs st)) st) as Halter.
  { intros f. unfold with_jobs. simpl. f_equal.
    by rewrite alter_insert_eq. }
  destruct (bool_decide (rc = 0)).
  { unfold bind. rewrite update_job_result_run. simpl. by rewrite Halter. }
  unfold bind at 1. unfold Worker.lift.
  destruct (Worker.backoff_delay base (attempts j + 1)) as [delay|e]; [|done].
  destruct (bool_decide (attempts j + 1 > max_retries j)%Z).
  - unfold bind. rewrite move_to_dead_run. simpl.
    rewrite lookup_insert_eq. by rewrite Halter.
  - unfold bind. rewrite update_job_result_run. simpl. by rewrite Halter.
Qed.

End worker_pass.

(** C7. When the command of the job a pass has claimed exits with code 0,
    the pass leaves the job [completed], with the attempts it had before
    the claim, no [last_error], [available_at = 0] and no owner. *)
Theorem success_completes_job pid base t st id j out :
  pass_claims pid t st id j →
  Worker.sh t (command j) = Worker.Exited 0 out →
  ∃ j0 j',
    jobs st !! id = Some j0 ∧
    result_of (Worker.worker_iteration pid base t) st
      = Return (Worker.Completed id) ∧
    jobs (db_after (Worker.worker_iteration pid base t) st) !! id = Some j' ∧
    state j' = "completed" ∧
    attempts j' = attempts j0 ∧
    last_error j' = None ∧
    available_at j' = 0 ∧
    worker_pid j' = None.
Proof.
  intros Hc Hsh.
  pose proof (worker_iteration_claimed pid base t st id j Hc) as Hrun.
  apply pass_claims_inv in Hc as (j0 & Hj0 & _ & -> & _).
  unfold Worker.run_command in Hrun. rewrite Hsh in Hrun.
  cbv zeta in Hrun. simpl in Hrun.
  exists j0. eexists. unfold result_of, db_after. rewrite Hrun. simpl.
  split_and!; [done|done|apply lookup_insert_eq|done..].
Qed.

Lemma success_completes_job_witness :
  ∃ j0 j',
    jobs scenario_C_enqueued !! 1 = Some j0 ∧
    result_of (Worker.worker_iteration 4242 2
                 (Worker.Tick false 0 1704067201 "c"
                    (λ _, Worker.Exited 0 "") 1704067202 "r"))
      scenario_C_enqueued = Return (Worker.Completed 1) ∧
    jobs (db_after (Worker.worker_iteration 4242 2
                      (Worker.Tick false 0 1704067201 "c"
                         (λ _, Worker.Exited 0 "") 1704067202 "r"))
            scenario_C_enqueued) !! 1 = Some j' ∧
    state j' = "completed" ∧
    attempts j' = attempts j0 ∧
    last_error j' = None ∧
    available_at j' = 0 ∧
    worker_pid j' = None.
Proof.
  eapply (success_completes_job 4242 2
            (Worker.Tick false 0 1704067201 "c"
               (λ _, Worker.Exited 0 "") 1704067202 "r")
            scenario_C_enqueued 1 _ "").
  - vm_compute. reflexivity.
  - reflexivity.
Defined.

(** When the command fails and the incremented count exceeds
    [max_retries], the pass goes through [move_to_dead], which writes the
    attempts it reads back from the table: the job ends [dead], without
    owner, with the diagnostic text, and with the attempts it had before
    this execution. *)
Lemma failure_beyond_retries_moves_to_dead pid base t st id j rc out delay :
  pass_claims pid t st id j →
  Worker.run_command (Worker.sh t) (command j) = (rc, out) →
  rc ≠ 0 →
  Worker.backoff_delay base (attempts j + 1) = Return delay →
  (attempts j + 1 > max_retries j)%Z →
  ∃ j0 j',
    jobs st !! id = Some j0 ∧
    result_of (Worker.worker_iteration pid base t) st
      = Return (Worker.MovedToDLQ id (attempts j0 + 1)) ∧
    jobs (db_after (Worker.worker_iteration pid base t) st) !! id = Some j' ∧
    state j' = "dead" ∧
    worker_pid j' = None ∧
    last_error j' = Some (Worker.format_error rc out) ∧
    available_at j' = 0 ∧
    attempts j' = attempts j0.
Proof.
  intros Hc Hsh Hrc Hdelay Hgt.
  pose proof (worker_iteration_claimed pid base t st id j Hc) as Hrun.
  apply pass_claims_inv in Hc as (j0 & Hj0 & _ & -> & _).
  rewrite Hsh in Hrun. cbv zeta in Hrun.
  rewrite bool_decide_eq_false_2, Hdelay, bool_decide_eq_true_2 in Hrun
    by done.
  exists j0. eexists. unfold result_of, db_after. rewrite Hrun. simpl.
  split_and!; [done|done|apply lookup_insert_eq|done..].
Qed.

(** C1. Scenario A, run: the job is enqueued with [max_retries = 0], a
    worker claims it and its command exits with code 1.  The pass reports
    the incremented count 1 and goes through [move_to_dead]; the record it
    leaves is [dead], without owner, with ["rc=1"] in [last_error], and
    with [attempts = 0]: the incremented count is not written. *)
Theorem scenario_A_leaves_attempts_unincremented :
  jobs scenario_A_enqueued !! 1
    = Some (Job None "exit 1" "pending" 0 0 "2024-01-01T00:00:00.000001Z"
              "2024-01-01T00:00:00.000001Z" 0 None None) ∧
  result_of (Worker.worker_iteration 4242 2 scenario_A_tick)
    scenario_A_enqueued = Return (Worker.MovedToDLQ 1 1) ∧
  jobs scenario_A_resolved !! 1
    = Some (Job None "exit 1" "dead" 0 0 "2024-01-01T00:00:00.000001Z"
              "2024-01-01T00:00:02.000001Z" 0 (Some "rc=1 out=") None).
Proof. vm_compute. done. Qed.

(** ** Backoff *)

Section backoff.

Local Open Scope Z_scope.

Lemma int_pow_exact base a :
  0 ≤ base → 0 ≤ a → base ^ a ≤ Worker.DBL_MAX →
  Worker.int_pow base a = Return (base ^ a).
Proof.
  intros Hb Ha Hmax. unfold Worker.int_pow.
  rewrite bool_decide_eq_true_2 by done.
  assert (0 ≤ base ^ a) by by apply Z.pow_nonneg.
  rewrite bool_decide_eq_true_2; [done|]. by rewrite Z.abs_eq.
Qed.

Lemma backoff_delay_min base a :
  0 ≤ base → 0 ≤ a → base ^ a ≤ Worker.DBL_MAX →
  Worker.backoff_delay base a = Return (Z.min (base ^ a) 3600).
Proof.
  intros Hb Ha Hmax. unfold Worker.backoff_delay.
  rewrite int_pow_exact by done. f_equal.
  case_bool_decide; lia.
Qed.

Lemma pow_mono_exponent base a a' :
  0 ≤ base → 1 ≤ a → a ≤ a' → base ^ a ≤ base ^ a'.
Proof.
  intros Hb Ha Hle.
  destruct (decide (base = 0)) as [->|Hne].
  - rewrite !Z.pow_0_l by lia. done.
  - apply Z.pow_le_mono_r; lia.
Qed.

(** The failure branch below the retry limit writes the incremented count
    and the time of next eligibility. *)
Lemma failure_within_retries_schedules pid base t st id j rc out delay :
  pass_claims pid t st id j →
  Worker.run_command (Worker.sh t) (command j) = (rc, out) →
  rc ≠ 0 →
  Worker.backoff_delay base (attempts j + 1) = Return delay →
  attempts j + 1 ≤ max_retries j →
  ∃ j', jobs (db_after (Worker.worker_iteration pid base t) st) !! id
          = Some j' ∧
        state j' = "failed" ∧
        attempts j' = attempts j + 1 ∧
        available_at j' = Worker.fail_ts t + delay ∧
        last_error j' = Some (Worker.format_error rc out) ∧
        worker_pid j' = None.
Proof.
  intros Hc Hsh Hrc Hdelay Hle.
  pose proof (worker_iteration_claimed pid base t st id j Hc) as Hrun.
  rewrite Hsh in Hrun. cbv zeta in Hrun.
  rewrite bool_decide_eq_false_2, Hdelay, bool_decide_eq_false_2 in Hrun
    by (done || lia).
  eexists. unfold db_after. rewrite Hrun. simpl.
  split_and!; [apply lookup_insert_eq|done..].
Qed.

(** C5, for the bases on which it holds.  For a backoff base that is a
    non-negative whole number and attempt counts [1 ≤ a ≤ a'] whose power
    fits a double, the delay after [a] failures is [min (base ^ a) 3600],
    it does not exceed the delay after [a'] failures, and it is at most
    3600; a job that fails for the [a]-th time with retries left becomes
    available again at the time of the failure plus that delay. *)
Theorem backoff_delay_capped_monotone base a a' :
  0 ≤ base → 1 ≤ a → a ≤ a' → base ^ a' ≤ Worker.DBL_MAX →
  ∃ d d',
    Worker.backoff_delay base a = Return d ∧
    Worker.backoff_delay base a' = Return d' ∧
    d = Z.min (base ^ a) 3600 ∧
    d' = Z.min (base ^ a') 3600 ∧
    d ≤ d' ∧
    d ≤ 3600 ∧
    ∀ pid t st id j rc out,
      pass_claims pid t st id j →
      attempts j + 1 = a →
      a ≤ max_retries j →
      Worker.run_command (Worker.sh t) (command j) = (rc, out) →
      rc ≠ 0 →
      ∃ j', jobs (db_after (Worker.worker_iteration pid base t) st) !! id
              = Some j' ∧
            state j' = "failed" ∧
            attempts j' = a ∧
            available_at j' = Worker.fail_ts t + d.
Proof.
  intros Hb Ha Hle Hmax.
  pose proof (pow_mono_exponent base a a' Hb Ha Hle) as Hmono.
  exists (Z.min (base ^ a) 3600), (Z.min (base ^ a') 3600).
  split_and!.
  - apply backoff_delay_min; lia.
  - apply backoff_delay_min; lia.
  - done.
  - done.
  - lia.
  - lia.
  - intros pid t st id j rc out Hc Hatt Hretries Hsh Hrc.
    destruct (failure_within_retries_schedules pid base t st id j rc out
                (Z.min (base ^ a) 3600)) as (j' & ? & ? & ? & ? & _); try done.
    + rewrite Hatt. apply backoff_delay_min; lia.
    + lia.
    + exists j'. split_and!; try done. lia.
Qed.

Lemma backoff_delay_capped_monotone_witness :
  Worker.backoff_delay 2 1 = Return 2 ∧
  Worker.backoff_delay 2 12 = Return 3600 ∧
  ∃ j', jobs (db_after (Worker.worker_iteration 4242 2 failing_tick)
                scenario_C_enqueued) !! 1 = Some j' ∧
        state j' = "failed" ∧
        attempts j' = 1 ∧
        available_at j' = 1704067202 + 2.
Proof.
  destruct (backoff_delay_capped_monotone 2 1 12)
    as (d & d' & Hd & Hd' & Heq & Heq' & _ & _ & Hpass);
    [lia | lia | lia | vm_compute; discriminate |].
  change (Z.min (2 ^ 1) 3600) with 2 in Heq.
  change (Z.min (2 ^ 12) 3600) with 3600 in Heq'. subst d d'.
  split_and!.
  - exact Hd.
  - exact Hd'.
  - eapply (Hpass 4242 failing_tick scenario_C_enqueued 1 _ 2 "boom").
    + vm_compute. reflexivity.
    + reflexivity.
    + vm_compute. discriminate.
    + reflexivity.
    + discriminate.
Defined.

(** C5 as stated fails for a negative base: with [backoff_base = -2] the
    delay after 2 failures is 4 and the delay after 3 failures is -8. *)
Lemma backoff_delay_negative_base_decreases :
  Worker.backoff_delay (-2) 2 = Return 4 ∧
  Worker.backoff_delay (-2) 3 = Return (-8) ∧
  ¬ (4 ≤ -8).
Proof. split_and!; [vm_compute; reflexivity..|lia]. Qed.

End backoff.

(** ** The claim protocol *)

Section claim_protocol.

Local Open Scope Z_scope.

(** C2, as the query has it.  When the transaction is granted,
    [claim_next_job] either finds no job that is [pending] with
    [available_at ≤ now], changes nothing and returns nothing; or it picks
    a job that is [pending] with [available_at ≤ now] and whose
    [created_at] is least among such jobs, sets its state to [processing],
    its owner to the caller and [updated_at] to the current time, leaves
    every other column and every other job alone, and returns the updated
    row.  Which of several jobs with the same least [created_at] is picked
    is not fixed by the query. *)
Theorem claim_next_job_selects_oldest_eligible tie now_ts now pid st :
  (Storage.claim_next_job false tie now_ts now pid st = (Return None, st) ∧
   ∀ id j, jobs st !! id = Some j →
           ¬ (state j = "pending" ∧ available_at j ≤ now_ts))
  ∨
  (∃ id j,
     jobs st !! id = Some j ∧
     state j = "pending" ∧
     available_at j ≤ now_ts ∧
     (∀ id' j', jobs st !! id' = Some j' →
                state j' = "pending" → available_at j' ≤ now_ts →
                (created_at j <=? created_at j')%string = true) ∧
     let claimed :=
       Job (external_id j) (command j) "processing" (attempts j)
         (max_retries j) (created_at j) now (available_at j) (last_error j)
         (Some pid) in
     Storage.claim_next_job false tie now_ts now pid st
       = (Return (Some (id, claimed)),
          with_jobs (<[id := claimed]> (jobs st)) st)).
Proof.
  rewrite claim_next_job_run.
  destruct (Storage.fetch_first tie now_ts (jobs st)) as [[id j]|] eqn:Hf.
  - right. apply fetch_first_Some in Hf as (Hlook & Hel & Hmin).
    apply eligible_spec in Hel as [Hst Hav].
    exists id, j. split_and!; try done.
    + intros id' j' Hlook' Hst' Hav'. apply (Hmin id' j' Hlook').
      by apply eligible_spec.
    + cbv zeta. unfold claimed_store.
      by rewrite (alter_present _ _ _ _ Hlook).
  - left. split; [done|].
    intros id j Hlook Hel. apply eligible_spec in Hel.
    by rewrite (fetch_first_None _ _ _ Hf id j Hlook) in Hel.
Qed.

(** C2 as stated fails on ties.  Jobs 1 and 2 are both pending, both
    eligible ten seconds after they were enqueued and have the same
    [created_at]; the query orders
    by [created_at] only, and an engine that reaches the rows through the
    index on [(state, available_at)] meets job 2 first and claims it,
    although job 1 has the smaller id. *)
Lemma claim_tie_not_broken_by_id :
  jobs tied_store !! 1
    = Some (Job None "echo a" "pending" 0 3 "2024-01-01T00:00:00.000001Z"
              "2024-01-01T00:00:00.000001Z" 1704067205 None None) ∧
  jobs tied_store !! 2
    = Some (Job None "echo b" "pending" 0 3 "2024-01-01T00:00:00.000001Z"
              "2024-01-01T00:00:00.000001Z" 0 None None) ∧
  result_of (Storage.claim_next_job false 1 1704067210
               "2024-01-01T00:00:10.000001Z" 4242) tied_store
    = Return (Some (2, Job None "echo b" "processing" 0 3
                         "2024-01-01T00:00:00.000001Z"
                         "2024-01-01T00:00:10.000001Z" 0 None (Some 4242))).
Proof. vm_compute. done. Qed.

End claim_protocol.

(** ** What one event does to the table *)

Section effects.

Local Open Scope Z_scope.
Implicit Types (st : store) (j : job).

Lemma lookup_with_jobs_insert st id j id' :
  jobs (with_jobs (<[id := j]> (jobs st)) st) !! id'
  = if decide (id = id') then Some j else jobs st !! id'.
Proof. simpl. apply lookup_insert. Qed.

(** [add_job] changes nothing or adds one row under an unused id. *)
Lemma add_job_effect now s st :
  db_after (Storage.add_job now s) st = st ∨
  ∃ id mr, jobs st !! id = None ∧
           db_after (Storage.add_job now s) st
           = with_jobs (<[id := inserted_row now s mr]> (jobs st)) st.
Proof.
  unfold db_after. rewrite add_job_run.
  destruct (negb _); [by left|].
  destruct (resolved_max_retries s st) as [mr|]; [|by left].
  destruct (negb _); [by left|].
  destruct (decide _); [by left|].
  right. eexists _, mr. split; [apply next_rowid_fresh|done].
Qed.

(** [claim_next_job] changes nothing or marks one pending row. *)
Lemma claim_effect locked tie now_ts now pid st :
  db_after (Storage.claim_next_job locked tie now_ts now pid) st = st ∨
  ∃ id j0, jobs st !! id = Some j0 ∧ state j0 = "pending" ∧
           Storage.claim_next_job locked tie now_ts now pid st
           = (Return (Some (id, Storage.claim_update pid now j0)),
              with_jobs (<[id := Storage.claim_update pid now j0]> (jobs st))
                st).
Proof.
  unfold db_after. rewrite claim_next_job_run.
  destruct locked; [by left|].
  destruct (Storage.fetch_first _ _ _) as [[id j0]|] eqn:Hf; [|by left].
  right. apply fetch_first_Some in Hf as (Hlook & Hel & _).
  apply eligible_spec in Hel as [Hst _].
  exists id, j0. split_and!; try done.
  unfold claimed_store. by rewrite (alter_present _ _ _ _ Hlook).
Qed.

(** A pass changes nothing, or rewrites one row that was pending: the row
    is left as claimed (the pass raised) or as resolved, with the claimed
    attempts or one more. *)
Lemma pass_effect pid base t st :
  db_after (Worker.worker_iteration pid base t) st = st ∨
  ∃ id j0 j',
    jobs st !! id = Some j0 ∧ state j0 = "pending" ∧
    db_after (Worker.worker_iteration pid base t) st
      = with_jobs (<[id := j']> (jobs st)) st ∧
    (j' = Storage.claim_update pid (Worker.claim_now t) j0 ∨
     ∃ s att err avail,
       j' = Storage.result_update s att err (Worker.result_now t) avail
              (Storage.claim_update pid (Worker.claim_now t) j0) ∧
       (s = "completed" ∨ s = "failed" ∨ s = "dead") ∧
       (att = attempts j0 ∨ att = attempts j0 + 1)).
Proof.
  destruct (claim_effect (Worker.locked t) (Worker.tie t) (Worker.claim_ts t)
              (Worker.claim_now t) pid st) as [Hsame|(id & j0 & Hj0 & Hst & Hrun)].
  - left. unfold db_after in *. unfold Worker.worker_iteration, bind.
    destruct (Storage.claim_next_job _ _ _ _ _ st) as [[[[id j]|]|e] st'] eqn:Hc;
      simpl in Hsame; subst st'; [|done..].
    exfalso. rewrite claim_next_job_run in Hc.
    destruct (Worker.locked t); [done|].
    destruct (Storage.fetch_first _ _ _) as [[id' j']|] eqn:Hf; [|done].
    injection Hc as -> <- Heq.
    apply fetch_first_Some in Hf as (Hlook & Hel & _).
    apply eligible_spec in Hel as [Hst _].
    apply (f_equal (λ s, state <$> jobs s !! id)) in Heq.
    unfold claimed_store in Heq. simpl in Heq.
    rewrite lookup_alter_eq, Hlook in Heq. simpl in Heq. congruence.
  - right. exists id, j0.
    assert (pass_claims pid t st id
              (Storage.claim_update pid (Worker.claim_now t) j0)) as Hc
      by (unfold pass_claims, result_of; by rewrite Hrun).
    pose proof (worker_iteration_claimed pid base t st id _ Hc) as Hpass.
    cbv zeta in Hpass. unfold db_after. rewrite Hpass.
    destruct (Worker.run_command _ _) as [rc out].
    destruct (bool_decide (rc = 0)).
    { eexists. split_and!; [done..|]. right. simpl.
      exists "completed", (attempts j0), None, 0. auto. }
    destruct (Worker.backoff_delay _ _) as [delay|e].
    2:{ eexists. split_and!; [done..|]. by left. }
    destruct (bool_decide _).
    + eexists. split_and!; [done..|]. right. simpl.
      eexists "dead", (attempts j0), _, 0. auto.
    + eexists. split_and!; [done..|]. right. simpl.
      eexists "failed", (attempts j0 + 1), _, _. auto.
Qed.

(** [retry_dead_job] changes nothing or resets one dead row. *)
Lemma retry_effect now id st :
  db_after (Storage.retry_dead_job now id) st = st ∨
  ∃ j0, jobs st !! id = Some j0 ∧ state j0 = "dead" ∧
        db_after (Storage.retry_dead_job now id) st
        = with_jobs (<[id := Storage.retry_update now j0]> (jobs st)) st.
Proof.
  unfold db_after. rewrite retry_dead_job_run.
  destruct (jobs st !! id) as [j0|] eqn:Hj0; [|by left].
  case_bool_decide; [|by left].
  right. exists j0. split_and!; try done. simpl.
  by rewrite (alter_present _ _ _ _ Hj0).
Qed.

End effects.

(** ** Jobs that are not pending *)

Section not_pending.

Implicit Types (st : store) (j : job).

(** An event leaves a job that is not pending as it is, unless the event is
    the dead-letter retry of that job and the job is dead. *)
Lemma occur_not_pending e st id j :
  jobs st !! id = Some j → state j ≠ "pending" →
  jobs (occur e st) !! id = Some j ∨
  (retries id e ∧ state j = "dead" ∧
   ∃ j', jobs (occur e st) !! id = Some j' ∧ state j' = "pending").
Proof.
  intros Hj Hst. destruct e as [now s|pid base t|now id']; simpl.
  - left. destruct (add_job_effect now s st) as [->|(k & mr & Hk & ->)]; [done|].
    rewrite lookup_with_jobs_insert. case_decide; congruence.
  - left.
    destruct (pass_effect pid base t st)
      as [->|(k & j0 & j' & Hk & Hpend & -> & _)]; [done|].
    rewrite lookup_with_jobs_insert. case_decide; congruence.
  - destruct (retry_effect now id' st) as [->|(j0 & Hk & Hdead & ->)];
      [by left|].
    rewrite lookup_with_jobs_insert. case_decide.
    + right. subst id'. split_and!; [done|congruence|]. by eexists.
    + by left.
Qed.

Lemma occur_all_not_pending es st id j :
  jobs st !! id = Some j → state j ≠ "pending" →
  Forall (λ e, ¬ retries id e) es →
  jobs (occur_all es st) !! id = Some j.
Proof.
  intros Hj Hst Hes. revert st Hj.
  induction Hes as [|e es He _ IH]; intros st Hj; [done|].
  simpl. apply IH.
  destruct (occur_not_pending e st id j Hj Hst) as [?|[? _]]; done.
Qed.

(** C3. A job whose state is not [pending] (so a [failed] or a [dead] one)
    is never returned by [claim_next_job] and is not touched by it; no
    enqueue and no worker pass changes it, so a failed job with retries
    left stays [failed] through any history without a dead-letter retry;
    and an event after which the job is [pending] again is the
    dead-letter retry of that job, applied while it was [dead]. *)
Theorem only_dlq_retry_returns_job_to_pending st id j :
  jobs st !! id = Some j → state j ≠ "pending" →
  (∀ locked tie now_ts now pid j',
     result_of (Storage.claim_next_job locked tie now_ts now pid) st
       ≠ Return (Some (id, j')) ∧
     jobs (db_after (Storage.claim_next_job locked tie now_ts now pid) st)
       !! id = Some j) ∧
  (∀ es, Forall (λ e, ¬ retries id e) es →
         jobs (occur_all es st) !! id = Some j) ∧
  (∀ e j', jobs (occur e st) !! id = Some j' → state j' = "pending" →
           retries id e ∧ state j = "dead").
Proof.
  intros Hj Hst. split_and!.
  - intros locked tie now_ts now pid j'.
    destruct (claim_effect locked tie now_ts now pid st)
      as [Hsame|(k & j0 & Hk & Hpend & Hrun)].
    + split; [|by rewrite Hsame].
      unfold result_of. unfold db_after in Hsame.
      destruct (Storage.claim_next_job _ _ _ _ _ st) as [r st'] eqn:Hc.
      simpl in *. subst st'. intros ->.
      rewrite claim_next_job_run in Hc. destruct locked; [done|].
      destruct (Storage.fetch_first _ _ _) as [[k j0]|] eqn:Hf; [|done].
      apply fetch_first_Some in Hf as (Hk & Hel & _).
      apply eligible_spec in Hel as [Hpend _].
      injection Hc as -> _ _. congruence.
    + unfold result_of, db_after. rewrite Hrun. simpl.
      assert (k ≠ id) by congruence. split; [congruence|].
      by rewrite lookup_insert_ne.
  - intros es Hes. by apply occur_all_not_pending.
  - intros e j' Hj' Hpend.
    destruct (occur_not_pending e st id j Hj Hst) as [Hsame|(? & ? & _)];
      [congruence|done].
Qed.

Lemma only_dlq_retry_returns_job_to_pending_witness :
  result_of (Storage.claim_next_job false 0 1704070000 "c" 7) failed_store
    = Return None ∧
  (∃ j, jobs failed_store !! 1 = Some j ∧ state j = "failed" ∧
        jobs (occur_all [Pass 7 2 later_tick;
                         Enqueue "2024-01-01T00:50:00.000001Z" later_job;
                         DlqRetry "2024-01-01T00:51:00.000001Z" 2;
                         Pass 7 2 later_tick] failed_store) !! 1 = Some j).
Proof.
  assert (jobs failed_store !! 1
          = Some (Job (Some "x") "true" "failed" 1 3
                    "2024-01-01T00:00:00.000001Z"
                    "2024-01-01T00:00:02.000001Z" 1704067204
                    (Some "rc=2 out=boom") None)) as Hj
    by (vm_compute; reflexivity).
  destruct (only_dlq_retry_returns_job_to_pending failed_store 1 _ Hj)
    as (Hclaim & Hhist & _); [simpl; discriminate|].
  split.
  - vm_compute. reflexivity.
  - eexists. split_and!; [exact Hj|reflexivity|].
    apply Hhist. repeat constructor; simpl; try tauto. discriminate.
Defined.

End not_pending.

(** ** Ownership *)

Section ownership.

Implicit Types (st : store) (j : job).

Lemma fresh_has_no_jobs id : jobs Storage.fresh !! id = None.
Proof. apply lookup_empty. Qed.

Lemma perform_keeps_owner_only_if_processing c st :
  owner_only_if_processing st → owner_only_if_processing (perform c st).
Proof.
  intros Hinv id j. destruct c as [now s|locked tie now_ts now pid
    |now k s att err avail|now k err|now k]; cbn [perform].
  - destruct (add_job_effect now s st) as [->|(k & mr & _ & ->)]; [apply Hinv|].
    rewrite lookup_with_jobs_insert. case_decide; [|apply Hinv].
    by intros [= <-].
  - destruct (claim_effect locked tie now_ts now pid st)
      as [->|(k & j0 & _ & _ & Hrun)]; [apply Hinv|].
    unfold db_after. rewrite Hrun. cbn [snd].
    rewrite lookup_with_jobs_insert. case_decide; [|apply Hinv].
    by intros [= <-].
  - unfold db_after. rewrite update_job_result_run. simpl.
    rewrite lookup_alter. case_decide; [|apply Hinv].
    destruct (jobs st !! k); [|done]. by intros [= <-].
  - unfold db_after. rewrite move_to_dead_run. simpl.
    rewrite lookup_alter. case_decide; [|apply Hinv].
    destruct (jobs st !! k); [|done]. by intros [= <-].
  - destruct (retry_effect now k st) as [->|(j0 & Hj0 & Hdead & ->)];
      [apply Hinv|].
    rewrite lookup_with_jobs_insert. case_decide; [|apply Hinv].
    intros [= <-]. simpl. intros Howner.
    specialize (Hinv k j0 Hj0 Howner). congruence.
Qed.

Lemma perform_keeps_processing_only_if_owned c st :
  ¬ writes_processing c →
  processing_only_if_owned st → processing_only_if_owned (perform c st).
Proof.
  intros Hc Hinv id j. destruct c as [now s|locked tie now_ts now pid
    |now k s att err avail|now k err|now k];
    cbn [perform writes_processing] in *.
  - destruct (add_job_effect now s st) as [->|(k & mr & _ & ->)]; [apply Hinv|].
    rewrite lookup_with_jobs_insert. case_decide; [|apply Hinv].
    by intros [= <-].
  - destruct (claim_effect locked tie now_ts now pid st)
      as [->|(k & j0 & _ & _ & Hrun)]; [apply Hinv|].
    unfold db_after. rewrite Hrun. cbn [snd].
    rewrite lookup_with_jobs_insert. case_decide; [|apply Hinv].
    by intros [= <-].
  - unfold db_after. rewrite update_job_result_run. simpl.
    rewrite lookup_alter. case_decide; [|apply Hinv].
    destruct (jobs st !! k); [|done]. by intros [= <-].
  - unfold db_after. rewrite move_to_dead_run. simpl.
    rewrite lookup_alter. case_decide; [|apply Hinv].
    destruct (jobs st !! k); [|done]. by intros [= <-].
  - destruct (retry_effect now k st) as [->|(j0 & Hj0 & Hdead & ->)];
      [apply Hinv|].
    rewrite lookup_with_jobs_insert. case_decide; [|apply Hinv].
    by intros [= <-].
Qed.

Lemma perform_all_keeps_owner_only_if_processing cs st :
  owner_only_if_processing st → owner_only_if_processing (perform_all cs st).
Proof.
  revert st. induction cs as [|c cs IH]; intros st Hinv; [done|].
  simpl. by apply IH, perform_keeps_owner_only_if_processing.
Qed.

Lemma perform_all_keeps_processing_only_if_owned cs st :
  Forall (λ c, ¬ writes_processing c) cs →
  processing_only_if_owned st → processing_only_if_owned (perform_all cs st).
Proof.
  intros Hcs. revert st. induction Hcs as [|c cs Hc _ IH]; intros st Hinv;
    [done|].
  simpl. by apply IH, perform_keeps_processing_only_if_owned.
Qed.

(** C8, as the operations have it.  In every database reached from a new
    one by calls of [add_job], [claim_next_job], [update_job_result],
    [move_to_dead] and [retry_dead_job], a job that has an owner is
    [processing]; and when no call of [update_job_result] wrote the state
    [processing], a job that is [processing] has an owner. *)
Theorem owner_iff_processing cs id j :
  jobs (perform_all cs Storage.fresh) !! id = Some j →
  (worker_pid j ≠ None → state j = "processing") ∧
  (Forall (λ c, ¬ writes_processing c) cs →
   state j = "processing" → worker_pid j ≠ None).
Proof.
  intros Hj. split.
  - apply (perform_all_keeps_owner_only_if_processing cs Storage.fresh)
      with (id := id); [|done].
    intros k x Hk. by rewrite fresh_has_no_jobs in Hk.
  - intros Hcs.
    apply (perform_all_keeps_processing_only_if_owned cs Storage.fresh Hcs)
      with (id := id); [|done].
    intros k x Hk. by rewrite fresh_has_no_jobs in Hk.
Qed.

Lemma owner_iff_processing_witness :
  ∃ j, jobs (perform_all
               [AddJob "2024-01-01T00:00:00.000001Z" later_job;
                ClaimNextJob false 0 1704067201 "2024-01-01T00:00:01.000001Z"
                  4242] Storage.fresh) !! 1 = Some j ∧
       state j = "processing" ∧ worker_pid j = Some 4242 ∧
       (worker_pid j ≠ None → state j = "processing") ∧
       (state j = "processing" → worker_pid j ≠ None).
Proof.
  eexists. split; [vm_compute; reflexivity|].
  split; [reflexivity|]. split; [reflexivity|].
  destruct (owner_iff_processing
              [AddJob "2024-01-01T00:00:00.000001Z" later_job;
               ClaimNextJob false 0 1704067201 "2024-01-01T00:00:01.000001Z"
                 4242] 1
              (Job None "true" "processing" 0 3 "2024-01-01T00:00:00.000001Z"
                 "2024-01-01T00:00:01.000001Z" 0 None (Some 4242)))
    as [Hown Hproc]; [vm_compute; reflexivity|].
  split; [exact Hown|].
  apply Hproc. repeat constructor; simpl; tauto.
Defined.

(** C8 as stated fails: [update_job_result] overwrites the state with
    whatever it is given and always clears the owner, so a call that writes
    [processing] leaves a processing job without owner. *)
Lemma processing_job_without_owner :
  jobs (perform_all
          [AddJob "2024-01-01T00:00:00.000001Z" later_job;
           UpdateJobResult "2024-01-01T00:00:01.000001Z" 1 "processing" 0
             None 0] Storage.fresh) !! 1
  = Some (Job None "true" "processing" 0 3 "2024-01-01T00:00:00.000001Z"
            "2024-01-01T00:00:01.000001Z" 0 None None).
Proof. vm_compute. reflexivity. Qed.

End ownership.

(** ** Attempts *)

Section attempts_count.

Local Open Scope Z_scope.
Implicit Types (st : store) (j : job).

Lemma occur_keeps_attempts_never_negative e st :
  attempts_not_negative e →
  attempts_never_negative st → attempts_never_negative (occur e st).
Proof.
  intros He Hinv id j. destruct e as [now s|pid base t|now k];
    cbn [occur attempts_not_negative] in *.
  - destruct (add_job_effect now s st) as [->|(k & mr & _ & ->)]; [apply Hinv|].
    rewrite lookup_with_jobs_insert. case_decide; [|apply Hinv].
    by intros [= <-].
  - destruct (pass_effect pid base t st)
      as [->|(k & j0 & j' & Hk & _ & -> & Hrow)]; [apply Hinv|].
    rewrite lookup_with_jobs_insert. case_decide; [|apply Hinv].
    intros [= <-]. specialize (Hinv k j0 Hk).
    destruct Hrow as [->|(s & att & err & avail & -> & _ & [->| ->])];
      simpl; lia.
  - destruct (retry_effect now k st) as [->|(j0 & _ & _ & ->)]; [apply Hinv|].
    rewrite lookup_with_jobs_insert. case_decide; [|apply Hinv].
    by intros [= <-].
Qed.

Lemma occur_all_keeps_attempts_never_negative es st :
  Forall attempts_not_negative es →
  attempts_never_negative st → attempts_never_negative (occur_all es st).
Proof.
  intros Hes. revert st. induction Hes as [|e es He _ IH]; intros st Hinv;
    [done|].
  simpl. by apply IH, occur_keeps_attempts_never_negative.
Qed.

(** An event that lowers the attempts of a job is the dead-letter retry of
    that job, and it leaves 0. *)
Lemma occur_lowers_attempts e st id j j' :
  jobs st !! id = Some j → jobs (occur e st) !! id = Some j' →
  attempts j' < attempts j →
  retries id e ∧ attempts j' = 0.
Proof.
  intros Hj. destruct e as [now s|pid base t|now k]; cbn [occur retries].
  - destruct (add_job_effect now s st) as [->|(k & mr & Hk & ->)].
    + rewrite Hj. intros [= <-]. lia.
    + rewrite lookup_with_jobs_insert. case_decide; [congruence|].
      rewrite Hj. intros [= <-]. lia.
  - destruct (pass_effect pid base t st)
      as [->|(k & j0 & j1 & Hk & _ & -> & Hrow)].
    + rewrite Hj. intros [= <-]. lia.
    + rewrite lookup_with_jobs_insert. case_decide.
      * subst k. assert (j0 = j) as -> by congruence. intros [= <-].
        destruct Hrow as [->|(s & att & err & avail & -> & _ & [->| ->])];
          simpl; lia.
      * rewrite Hj. intros [= <-]. lia.
  - destruct (retry_effect now k st) as [->|(j0 & Hk & _ & ->)].
    + rewrite Hj. intros [= <-]. lia.
    + rewrite lookup_with_jobs_insert. case_decide.
      * by intros [= <-].
      * rewrite Hj. intros [= <-]. lia.
Qed.

(** C9, as the operations have it.  In every database reached from a new
    one by enqueueing jobs whose supplied [attempts] is absent or not
    negative, by worker passes and by dead-letter retries, every job has
    [attempts ≥ 0]; and an event that lowers the attempts of a job is the
    dead-letter retry of that job, which leaves it at 0. *)
Theorem attempts_stay_non_negative es :
  Forall attempts_not_negative es →
  (∀ id j, jobs (occur_all es Storage.fresh) !! id = Some j →
           0 ≤ attempts j) ∧
  (∀ e id j j',
     jobs (occur_all es Storage.fresh) !! id = Some j →
     jobs (occur e (occur_all es Storage.fresh)) !! id = Some j' →
     attempts j' < attempts j →
     retries id e ∧ attempts j' = 0).
Proof.
  intros Hes. split.
  - apply (occur_all_keeps_attempts_never_negative es Storage.fresh Hes).
    intros k x Hk. by rewrite fresh_has_no_jobs in Hk.
  - intros e id j j'. apply occur_lowers_attempts.
Qed.

Lemma attempts_stay_non_negative_witness :
  ∃ j j',
    jobs (occur_all dead_with_attempts Storage.fresh) !! 1 = Some j ∧
    state j = "dead" ∧ attempts j = 2 ∧ 0 ≤ attempts j ∧
    jobs (occur (DlqRetry "2024-01-01T01:00:00.000001Z" 1)
            (occur_all dead_with_attempts Storage.fresh)) !! 1 = Some j' ∧
    attempts j' = 0.
Proof.
  destruct (attempts_stay_non_negative dead_with_attempts) as [Hpos Hlow].
  { repeat constructor; simpl; lia. }
  eexists _, _.
  split; [vm_compute; reflexivity|].
  split; [reflexivity|]. split; [reflexivity|].
  split; [eapply (Hpos 1); vm_compute; reflexivity|].
  split; [vm_compute; reflexivity|].
  eapply (Hlow (DlqRetry "2024-01-01T01:00:00.000001Z" 1) 1);
    [vm_compute; reflexivity..|simpl; lia].
Defined.

(** C9 as stated fails at insertion: [add_job] stores the [attempts] it is
    given, also a negative one. *)
Lemma add_job_accepts_negative_attempts :
  jobs (occur_all
          [Enqueue "2024-01-01T00:00:00.000001Z"
             (Storage.Submission (Some "true") None None (Some (-5)) None
                None)] Storage.fresh) !! 1
  = Some (Job None "true" "pending" (-5) 3 "2024-01-01T00:00:00.000001Z"
            "2024-01-01T00:00:00.000001Z" 0 None None).
Proof. vm_compute. reflexivity. Qed.

End attempts_count.

(** ** Worker passes as store calls *)

Section passes_as_calls.

Implicit Types (st : store) (j : job).

Lemma perform_all_app cs1 cs2 st :
  perform_all (cs1 ++ cs2)%list st = perform_all cs2 (perform_all cs1 st).
Proof. apply foldl_app. Qed.

(** A pass is a claim followed by at most one resolution, and the
    resolution never writes [processing]. *)
Lemma pass_as_calls pid base t st :
  ∃ cs, Forall (λ c, ¬ writes_processing c) cs ∧
        db_after (Worker.worker_iteration pid base t) st = perform_all cs st.
Proof.
  set (c := ClaimNextJob (Worker.locked t) (Worker.tie t) (Worker.claim_ts t)
              (Worker.claim_now t) pid).
  assert (¬ writes_processing c) as Hc by (simpl; tauto).
  unfold db_after, Worker.worker_iteration. unfold bind at 1.
  destruct (Storage.claim_next_job _ _ _ _ _ st) as [[[[id j]|]|e] st1] eqn:Hcl.
  2,3: exists [c]; split; [by constructor|];
       simpl; unfold db_after; by rewrite Hcl.
  destruct (Worker.run_command _ _) as [rc out].
  destruct (bool_decide (rc = 0)).
  { exists [c; UpdateJobResult (Worker.result_now t) id "completed"
                 (attempts j) None 0].
    split; [repeat constructor; simpl; (tauto || discriminate)|].
    simpl. unfold db_after. by rewrite Hcl. }
  unfold bind at 1. unfold Worker.lift.
  destruct (Worker.backoff_delay _ _) as [delay|e].
  2:{ exists [c]. split; [by constructor|].
      simpl. unfold db_after. by rewrite Hcl. }
  destruct (bool_decide _).
  - exists [c; MoveToDead (Worker.result_now t) id
                 (Some (Worker.format_error rc out))].
    split; [repeat constructor; simpl; tauto|].
    simpl. unfold db_after. by rewrite Hcl.
  - exists [c; UpdateJobResult (Worker.result_now t) id "failed"
                 (attempts j + 1)%Z (Some (Worker.format_error rc out))
                 (Worker.fail_ts t + delay)%Z].
    split; [repeat constructor; simpl; (tauto || discriminate)|].
    simpl. unfold db_after. by rewrite Hcl.
Qed.

Lemma occur_all_as_calls es st :
  ∃ cs, Forall (λ c, ¬ writes_processing c) cs ∧
        occur_all es st = perform_all cs st.
Proof.
  revert st. induction es as [|e es IH]; intros st.
  { exists []. by split. }
  assert (∃ cs, Forall (λ c, ¬ writes_processing c) cs ∧
                occur e st = perform_all cs st) as (cs1 & Hcs1 & Heq1).
  { destruct e as [now s|pid base t|now id]; simpl.
    - exists [AddJob now s]. split; [|done].
      repeat constructor; simpl; tauto.
    - apply pass_as_calls.
    - exists [RetryDeadJob now id]. split; [|done].
      repeat constructor; simpl; tauto. }
  destruct (IH (occur e st)) as (cs2 & Hcs2 & Heq2).
  exists (cs1 ++ cs2)%list. split; [by apply Forall_app|].
  simpl. by rewrite Heq2, Heq1, perform_all_app.
Qed.

(** The queue as it runs keeps owner and [processing] together: the worker
    resolves jobs to [completed], [failed] and [dead] only. *)
Lemma running_queue_owner_iff_processing es id j :
  jobs (occur_all es Storage.fresh) !! id = Some j →
  worker_pid j ≠ None ↔ state j = "processing".
Proof.
  destruct (occur_all_as_calls es Storage.fresh) as (cs & Hcs & ->).
  intros Hj. split.
  - apply (perform_all_keeps_owner_only_if_processing cs Storage.fresh)
      with (id := id); [|done].
    intros k x Hk. by rewrite fresh_has_no_jobs in Hk.
  - apply (perform_all_keeps_processing_only_if_owned cs Storage.fresh Hcs)
      with (id := id); [|done].
    intros k x Hk. by rewrite fresh_has_no_jobs in Hk.
Qed.

(** With the seeded base 2, the 1024th failure of a job makes [math.pow]
    raise; the pass ends there and the job stays claimed. *)
Lemma backoff_overflows_double :
  Worker.backoff_delay 2 1023 = Return 3600%Z ∧
  Worker.backoff_delay 2 1024 = Raise (OverflowError "math range error").
Proof. split; vm_compute; reflexivity. Qed.

End passes_as_calls.

(** * Further properties of the store and the worker *)

(** ** Configuration *)

Section configuration.

Implicit Types (st : store).

(** [set_config] then [get_config]: the value just written is read back
    whatever default is offered, every other key reads as before, and the
    jobs and the worker registry are untouched. *)
Theorem set_config_get_config key value st :
  (∀ default,
     result_of (Storage.get_config key default)
       (db_after (Storage.set_config key value) st) = Return value) ∧
  (∀ key' default, key' ≠ key →
     result_of (Storage.get_config key' default)
       (db_after (Storage.set_config key value) st)
     = result_of (Storage.get_config key' default) st) ∧
  jobs (db_after (Storage.set_config key value) st) = jobs st ∧
  workers_meta (db_after (Storage.set_config key value) st) = workers_meta st.
Proof.
  split_and!; try done.
  - intros default. unfold result_of, db_after. simpl.
    by rewrite lookup_insert_eq.
  - intros key' default Hne. unfold result_of, db_after. simpl.
    by rewrite lookup_insert_ne.
Qed.

Lemma set_config_get_config_witness :
  result_of (Storage.get_config "backoff_base" "2") tuned_store
    = Return "3" ∧
  result_of (Storage.get_config "default_max_retries" "7") tuned_store
    = Return "3".
Proof.
  split.
  - apply (proj1 (set_config_get_config "backoff_base" "3" registered_store)
             "2").
  - etrans.
    + apply (proj1 (proj2 (set_config_get_config "backoff_base" "3"
                             registered_store)) "default_max_retries" "7").
      discriminate.
    + vm_compute. reflexivity.
Defined.

Lemma insert_or_ignore_lookup key value (c : gmap string string) key' :
  Storage.insert_or_ignore key value c !! key'
  = match c !! key' with
    | Some v => Some v
    | None => if decide (key = key') then Some value else None
    end.
Proof.
  unfold Storage.insert_or_ignore.
  destruct (c !! key) as [v|] eqn:Hk.
  - destruct (c !! key') as [v'|] eqn:Hk'; [done|].
    case_decide; [congruence|done].
  - rewrite lookup_insert. case_decide; [subst; by rewrite Hk|].
    by destruct (c !! key').
Qed.

(** Opening a database again ([init_schema] on an existing file): a value
    already configured for [backoff_base] or [default_max_retries] is kept,
    a missing one is seeded with 2 and 3, no other key appears, the jobs
    and the registry are as they were, and a second run changes nothing
    more. *)
Theorem init_schema_keeps_existing st :
  let st' := db_after Storage.init_schema st in
  (∀ key value, config st !! key = Some value →
                config st' !! key = Some value) ∧
  (config st !! "backoff_base" = None →
   config st' !! "backoff_base" = Some "2") ∧
  (config st !! "default_max_retries" = None →
   config st' !! "default_max_retries" = Some "3") ∧
  (∀ key, key ≠ "backoff_base" → key ≠ "default_max_retries" →
          config st' !! key = config st !! key) ∧
  jobs st' = jobs st ∧ workers_meta st' = workers_meta st ∧
  db_after Storage.init_schema st' = st'.
Proof.
  cbv zeta. unfold db_after. simpl. split_and!; try done.
  - intros key value Hk. rewrite !insert_or_ignore_lookup. by rewrite Hk.
  - intros Hk. rewrite !insert_or_ignore_lookup. rewrite Hk. simpl.
    by destruct (config st !! "default_max_retries").
  - intros Hk. rewrite !insert_or_ignore_lookup. by rewrite Hk.
  - intros key H1 H2. rewrite !insert_or_ignore_lookup.
    destruct (config st !! key); [done|].
    rewrite !decide_False by done. done.
  - f_equal. apply map_eq. intros key.
    rewrite !insert_or_ignore_lookup.
    destruct (config st !! key); [done|].
    repeat case_decide; done.
Qed.

Lemma init_schema_keeps_existing_witness :
  config (db_after Storage.init_schema tuned_store) !! "backoff_base"
    = Some "3" ∧
  config (db_after Storage.init_schema Storage.empty_db) !! "backoff_base"
    = Some "2".
Proof.
  split.
  - apply (proj1 (init_schema_keeps_existing tuned_store)).
    vm_compute. reflexivity.
  - apply (proj1 (proj2 (init_schema_keeps_existing Storage.empty_db))).
    vm_compute. reflexivity.
Defined.

End configuration.

(** ** Enqueueing *)

Section enqueueing.

Local Open Scope Z_scope.
Implicit Types (st : store) (j : job).

(** What [add_job] returns when it returns. *)
Lemma add_job_returns now s st id :
  result_of (Storage.add_job now s) st = Return id →
  id = Storage.max_rowid (jobs st) + 1 ∧
  ∃ mr, resolved_max_retries s st = Some mr ∧
        db_after (Storage.add_job now s) st
        = with_jobs (<[id := inserted_row now s mr]> (jobs st)) st.
Proof.
  unfold result_of, db_after. rewrite add_job_run.
  destruct (negb _); [done|].
  destruct (resolved_max_retries s st) as [mr|]; [|done].
  destruct (negb _); [done|]. destruct (decide _); [done|].
  simpl. intros [= <-]. split; [done|]. by exists mr.
Qed.

Lemma max_rowid_nonneg (js : gmap Z job) : 0 ≤ Storage.max_rowid js.
Proof.
  unfold Storage.max_rowid.
  induction ((map_to_list js).*1) as [|k l IH]; simpl; lia.
Qed.

(** [add_job] then [get_job]: the id returned is positive and larger than
    every id in the table, [get_job] finds nothing under it before the
    call and finds the new row under it afterwards, with the command that
    was submitted; every job that was there is found unchanged. *)
Theorem add_job_get_job now s st id :
  result_of (Storage.add_job now s) st = Return id →
  1 ≤ id ∧
  (∀ k j, jobs st !! k = Some j → k < id) ∧
  result_of (Storage.get_job id) st = Return None ∧
  (∃ j, result_of (Storage.get_job id) (db_after (Storage.add_job now s) st)
          = Return (Some (id, j)) ∧
        Some (command j) = Storage.sub_command s ∧
        created_at j = now ∧ updated_at j = now ∧ last_error j = None) ∧
  (∀ k, k ≠ id →
        result_of (Storage.get_job k) (db_after (Storage.add_job now s) st)
        = result_of (Storage.get_job k) st).
Proof.
  intros Hret.
  assert (Storage.truthy (Storage.sub_command s) = true) as Hcmd.
  { unfold result_of in Hret. rewrite add_job_run in Hret.
    by destruct (Storage.truthy _). }
  apply add_job_returns in Hret as [-> (mr & _ & Hafter)].
  pose proof (max_rowid_nonneg (jobs st)).
  split_and!.
  - lia.
  - intros k j Hk. apply max_rowid_bound in Hk. lia.
  - unfold result_of. simpl. by rewrite next_rowid_fresh.
  - exists (inserted_row now s mr). rewrite Hafter.
    unfold result_of. simpl. rewrite lookup_insert_eq. simpl.
    split_and!; try done.
    destruct (Storage.sub_command s); [done|discriminate].
  - intros k Hk. rewrite Hafter. unfold result_of. simpl.
    by rewrite lookup_insert_ne.
Qed.

Lemma add_job_get_job_witness :
  ∃ j, result_of (Storage.get_job 2)
         (db_after (Storage.add_job "2024-01-01T00:10:00.000001Z" later_job)
            scenario_C_enqueued) = Return (Some (2, j)) ∧
       Some (command j) = Some "true".
Proof.
  destruct (add_job_get_job "2024-01-01T00:10:00.000001Z" later_job
              scenario_C_enqueued 2)
    as (_ & _ & _ & (j & Hget & Hcmd & _) & _).
  { vm_compute. reflexivity. }
  exists j. split; [exact Hget|exact Hcmd].
Defined.

(** A submission without any external id (no [id] or an empty one, and no
    [external_id]) never fails on the UNIQUE constraint, whatever the
    database holds: NULL external ids never collide.  If it has a command,
    its [max_retries] resolves (it brings one, or the configured default is
    an integer literal) and its integers fit SQLite's INTEGER, it is
    accepted in every database: one row more, without an external id and
    with the resolved [max_retries]. *)
Theorem add_job_without_external_id now s st :
  Storage.sub_id s = None ∨ Storage.sub_id s = Some "" →
  Storage.sub_external_id s = None →
  (∀ msg, result_of (Storage.add_job now s) st ≠ Raise (IntegrityError msg)) ∧
  (∀ cmd mr,
     Storage.sub_command s = Some cmd → cmd ≠ "" →
     Storage.sub_max_retries s = Some mr ∨
     (Storage.sub_max_retries s = None ∧
      Storage.py_int (configured "default_max_retries" "3" st) = Some mr) →
     integers_fit s mr →
     ∃ id j,
       result_of (Storage.add_job now s) st = Return id ∧
       jobs (db_after (Storage.add_job now s) st) !! id = Some j ∧
       external_id j = None ∧ max_retries j = mr ∧
       size (jobs (db_after (Storage.add_job now s) st)) = S (size (jobs st))).
Proof.
  intros Hid Hext.
  assert (requested_external_id s = None) as Hreq.
  { unfold requested_external_id. rewrite Hext.
    destruct Hid as [->| ->]; done. }
  split.
  - intros msg. unfold result_of. rewrite add_job_run, Hreq.
    destruct (negb _); [done|].
    destruct (resolved_max_retries s st); [|done].
    destruct (negb _); [done|].
    destruct (decide _) as [[]|]; done.
  - intros cmd mr Hcmd Hne Hmr (Ha & Hm & Hv).
    assert (resolved_max_retries s st = Some mr) as Hres.
    { unfold resolved_max_retries. by destruct Hmr as [->|[-> ->]]. }
    exists (Storage.max_rowid (jobs st) + 1), (inserted_row now s mr).
    unfold result_of, db_after. rewrite add_job_run, Hcmd, Hres, Hreq. simpl.
    rewrite bool_decide_eq_false_2 by done. simpl.
    unfold Storage.fits_integer. rewrite !bool_decide_eq_true_2 by done.
    simpl. split_and!; try done.
    + apply lookup_insert_eq.
    + apply map_size_insert_None, next_rowid_fresh.
Qed.

Lemma add_job_without_external_id_witness :
  (∀ msg, result_of (Storage.add_job "2024-01-01T00:10:00.000001Z" later_job)
            misconfigured_store ≠ Raise (IntegrityError msg)) ∧
  ∃ id j,
    result_of (Storage.add_job "2024-01-01T00:10:00.000001Z" later_job)
      tied_store = Return id ∧
    jobs (db_after (Storage.add_job "2024-01-01T00:10:00.000001Z" later_job)
            tied_store) !! id = Some j ∧
    external_id j = None ∧ max_retries j = 3 ∧
    size (jobs (db_after (Storage.add_job "2024-01-01T00:10:00.000001Z"
                            later_job) tied_store))
    = S (size (jobs tied_store)).
Proof.
  split.
  - apply (add_job_without_external_id "2024-01-01T00:10:00.000001Z"
             later_job misconfigured_store); [by left|reflexivity].
  - apply (proj2 (add_job_without_external_id "2024-01-01T00:10:00.000001Z"
                    later_job tied_store (or_introl eq_refl) eq_refl)
             "true" 3).
    + reflexivity.
    + discriminate.
    + right. split; vm_compute; reflexivity.
    + unfold integers_fit. vm_compute. intuition discriminate.
Defined.

End enqueueing.

(** ** What no call does *)

Section rows_under_calls.

Local Open Scope Z_scope.
Implicit Types (st : store) (j : job).

Lemma same_identity_refl j : same_identity j j.
Proof. by unfold same_identity. Qed.

Lemma same_identity_trans j1 j2 j3 :
  same_identity j1 j2 → same_identity j2 j3 → same_identity j1 j3.
Proof. unfold same_identity. intros (?&?&?&?) (?&?&?&?). split_and!; congruence. Qed.

(** A call keeps every row in place and leaves its identity alone. *)
Lemma perform_keeps_row c st id j :
  jobs st !! id = Some j →
  ∃ j', jobs (perform c st) !! id = Some j' ∧ same_identity j j'.
Proof.
  intros Hj. destruct c as [now s|locked tie now_ts now pid
    |now k s att err avail|now k err|now k]; cbn [perform].
  - destruct (add_job_effect now s st) as [->|(k & mr & Hk & ->)].
    + exists j. split; [done|apply same_identity_refl].
    + exists j. split; [|apply same_identity_refl].
      rewrite lookup_with_jobs_insert. case_decide; congruence.
  - destruct (claim_effect locked tie now_ts now pid st)
      as [->|(k & j0 & Hk & _ & Hrun)].
    + exists j. split; [done|apply same_identity_refl].
    + unfold db_after. rewrite Hrun. cbn [snd].
      rewrite lookup_with_jobs_insert. case_decide.
      * subst k. assert (j0 = j) as -> by congruence.
        eexists. split; [done|]. by unfold same_identity.
      * exists j. split; [done|apply same_identity_refl].
  - unfold db_after. rewrite update_job_result_run. simpl.
    rewrite lookup_alter. case_decide.
    + subst k. rewrite Hj. eexists. split; [done|]. by unfold same_identity.
    + exists j. split; [done|apply same_identity_refl].
  - unfold db_after. rewrite move_to_dead_run. simpl.
    rewrite lookup_alter. case_decide.
    + subst k. rewrite Hj. eexists. split; [done|]. by unfold same_identity.
    + exists j. split; [done|apply same_identity_refl].
  - destruct (retry_effect now k st) as [->|(j0 & Hk & _ & ->)].
    + exists j. split; [done|apply same_identity_refl].
    + rewrite lookup_with_jobs_insert. case_decide.
      * subst k. assert (j0 = j) as -> by congruence.
        eexists. split; [done|]. by unfold same_identity.
      * exists j. split; [done|apply same_identity_refl].
Qed.

(** A row that appears was inserted by [add_job], under the next id and
    with an external id that no other job had. *)
Lemma perform_new_row c st id j' :
  jobs st !! id = None → jobs (perform c st) !! id = Some j' →
  id = Storage.max_rowid (jobs st) + 1 ∧
  ¬ Storage.external_id_taken (external_id j') (jobs st).
Proof.
  intros Hnone. destruct c as [now s|locked tie now_ts now pid
    |now k s att err avail|now k err|now k]; cbn [perform].
  - unfold db_after. rewrite add_job_run.
    destruct (negb _); [simpl; congruence|].
    destruct (resolved_max_retries s st) as [mr|]; [|simpl; congruence].
    destruct (negb _); [simpl; congruence|].
    destruct (decide _) as [|Hfree]; [simpl; congruence|]. simpl.
    rewrite lookup_insert. case_decide; [|congruence].
    by intros [= <-].
  - destruct (claim_effect locked tie now_ts now pid st)
      as [->|(k & j0 & Hk & _ & Hrun)]; [congruence|].
    unfold db_after. rewrite Hrun. cbn [snd].
    rewrite lookup_with_jobs_insert. case_decide; congruence.
  - unfold db_after. rewrite update_job_result_run. simpl.
    rewrite lookup_alter. case_decide; [subst k; by rewrite Hnone|congruence].
  - unfold db_after. rewrite move_to_dead_run. simpl.
    rewrite lookup_alter. case_decide; [subst k; by rewrite Hnone|congruence].
  - destruct (retry_effect now k st) as [->|(j0 & Hk & _ & ->)]; [congruence|].
    rewrite lookup_with_jobs_insert. case_decide; congruence.
Qed.

Lemma perform_keeps_unique_external_ids c st :
  unique_external_ids st → unique_external_ids (perform c st).
Proof.
  intros Hinv i i' j1 j2 e H1 H2 He1 He2.
  destruct (jobs st !! i) as [j1o|] eqn:Hi;
    destruct (jobs st !! i') as [j2o|] eqn:Hi'.
  - destruct (perform_keeps_row c st i j1o Hi) as (x & Hx & Hid1 & _).
    destruct (perform_keeps_row c st i' j2o Hi') as (y & Hy & Hid2 & _).
    apply (Hinv i i' j1o j2o e); [done|done|congruence..].
  - destruct (perform_new_row c st i' j2 Hi' H2) as [_ Hfree].
    destruct (perform_keeps_row c st i j1o Hi) as (x & Hx & Hid1 & _).
    exfalso. apply Hfree. rewrite He2. simpl.
    exists i, j1o. split; [done|]. congruence.
  - destruct (perform_new_row c st i j1 Hi H1) as [_ Hfree].
    destruct (perform_keeps_row c st i' j2o Hi') as (y & Hy & Hid2 & _).
    exfalso. apply Hfree. rewrite He1. simpl.
    exists i', j2o. split; [done|]. congruence.
  - destruct (perform_new_row c st i j1 Hi H1) as [-> _].
    by destruct (perform_new_row c st i' j2 Hi' H2) as [-> _].
Qed.

(** In every database reached from a new one by calls of the job
    operations, with any arguments, no two jobs carry the same external
    id. *)
Theorem external_ids_stay_unique cs :
  unique_external_ids (perform_all cs Storage.fresh).
Proof.
  assert (∀ st, unique_external_ids st →
                unique_external_ids (perform_all cs st)) as Hall.
  { induction cs as [|c cs IH]; intros st Hinv; [done|].
    simpl. by apply IH, perform_keeps_unique_external_ids. }
  apply Hall. intros i i' j j' e Hi. by rewrite fresh_has_no_jobs in Hi.
Qed.

(** No call of a job operation removes a job or changes what it is: a job
    that is in the table is still there after any sequence of calls, with
    the same external id, command, [max_retries] and [created_at]. *)
Theorem jobs_keep_their_identity cs st id j :
  jobs st !! id = Some j →
  ∃ j', jobs (perform_all cs st) !! id = Some j' ∧
        external_id j' = external_id j ∧ command j' = command j ∧
        max_retries j' = max_retries j ∧ created_at j' = created_at j.
Proof.
  revert st j. induction cs as [|c cs IH]; intros st j Hj.
  { exists j. by split_and!. }
  destruct (perform_keeps_row c st id j Hj) as (j1 & Hj1 & Hsame1).
  destruct (IH (perform c st) j1 Hj1) as (j2 & Hj2 & Hsame2).
  exists j2. split; [done|].
  apply (same_identity_trans j j1 j2 Hsame1). exact Hsame2.
Qed.

Lemma jobs_keep_their_identity_witness :
  ∃ j', jobs (perform_all
                [ClaimNextJob false 0 1704067201 "c" 7;
                 UpdateJobResult "u" 1 "failed" 1 (Some "rc=2 out=") 1704067300;
                 MoveToDead "d" 1 None;
                 RetryDeadJob "r" 1;
                 AddJob "a" later_job] scenario_C_enqueued) !! 1 = Some j' ∧
        external_id j' = Some "x" ∧ command j' = "true" ∧
        max_retries j' = 3 ∧ created_at j' = "2024-01-01T00:00:00.000001Z".
Proof.
  eapply (jobs_keep_their_identity _ scenario_C_enqueued 1
            (Job (Some "x") "true" "pending" 0 3
               "2024-01-01T00:00:00.000001Z" "2024-01-01T00:00:00.000001Z"
               0 None None)).
  vm_compute. reflexivity.
Defined.

End rows_under_calls.

(** ** Claims in a row *)

Section successive_claims.

Local Open Scope Z_scope.
Implicit Types (st : store) (j : job).

(** A job that a claim returns was pending. *)
Lemma claim_returns_pending locked tie now_ts now pid st id j :
  result_of (Storage.claim_next_job locked tie now_ts now pid) st
    = Return (Some (id, j)) →
  ∃ j0, jobs st !! id = Some j0 ∧ state j0 = "pending" ∧
        j = Storage.claim_update pid now j0 ∧
        jobs (db_after (Storage.claim_next_job locked tie now_ts now pid) st)
          !! id = Some j.
Proof.
  unfold result_of, db_after. rewrite claim_next_job_run.
  destruct locked; [done|].
  destruct (Storage.fetch_first _ _ _) as [[k j0]|] eqn:Hf; [|done].
  simpl. intros [= <- <-].
  apply fetch_first_Some in Hf as (Hk & Hel & _).
  apply eligible_spec in Hel as [Hst _].
  exists j0. split_and!; try done.
  by rewrite lookup_alter_eq, Hk.
Qed.

(** Claims leave a job that is not pending exactly as it is. *)
Lemma claims_keep_not_pending cs st id j :
  Forall is_claim cs →
  jobs st !! id = Some j → state j ≠ "pending" →
  jobs (perform_all cs st) !! id = Some j.
Proof.
  intros Hcs. revert st. induction Hcs as [|c cs Hc _ IH]; intros st Hj Hst;
    [done|].
  simpl. apply IH; [|done].
  destruct c as [| locked tie now_ts now pid | | |]; try done.
  cbn [perform].
  destruct (claim_effect locked tie now_ts now pid st)
    as [->|(k & j0 & Hk & Hpend & Hrun)]; [done|].
  unfold db_after. rewrite Hrun. cbn [snd].
  rewrite lookup_with_jobs_insert. case_decide; congruence.
Qed.

(** At most one claim per job.  Once a claim has returned a job, no claim
    made afterwards returns it again, whoever asks, at whatever time and
    however many other claims were made in between; the job stays
    [processing] under the worker that claimed it. *)
Theorem claimed_job_is_not_claimed_again locked tie now_ts now pid st id j cs :
  result_of (Storage.claim_next_job locked tie now_ts now pid) st
    = Return (Some (id, j)) →
  Forall is_claim cs →
  let st' := perform_all cs
               (db_after (Storage.claim_next_job locked tie now_ts now pid)
                  st) in
  jobs st' !! id = Some j ∧ state j = "processing" ∧
  worker_pid j = Some pid ∧
  ∀ locked' tie' now_ts' now' pid' j',
    result_of (Storage.claim_next_job locked' tie' now_ts' now' pid') st'
      ≠ Return (Some (id, j')).
Proof.
  intros Hret Hcs. cbv zeta.
  apply claim_returns_pending in Hret as (j0 & _ & _ & -> & Hafter).
  assert (jobs (perform_all cs
                  (db_after (Storage.claim_next_job locked tie now_ts now pid)
                     st)) !! id
          = Some (Storage.claim_update pid now j0)) as Hkept
    by by apply claims_keep_not_pending.
  split_and!; try done.
  intros locked' tie' now_ts' now' pid' j' Hagain.
  apply claim_returns_pending in Hagain as (j1 & Hj1 & Hpend & _).
  rewrite Hkept in Hj1. injection Hj1 as <-. done.
Qed.

Lemma claimed_job_is_not_claimed_again_witness :
  result_of (Storage.claim_next_job false 0 1704067211 "c3" 9)
    (perform_all [ClaimNextJob false 0 1704067210 "c2" 8]
       (db_after (Storage.claim_next_job false 0 1704067210 "c1" 7)
          tied_store))
  ≠ Return (Some (1, Storage.claim_update 9 "c3"
                       (Job None "echo a" "pending" 0 3
                          "2024-01-01T00:00:00.000001Z"
                          "2024-01-01T00:00:00.000001Z" 1704067205 None
                          None))).
Proof.
  eapply (claimed_job_is_not_claimed_again false 0 1704067210 "c1" 7
            tied_store 1 _ [ClaimNextJob false 0 1704067210 "c2" 8]).
  - vm_compute. reflexivity.
  - repeat constructor.
Defined.

Lemma NoDup_fmap_agree {A B} (f : A → B) (l : list A) x y :
  NoDup (f <$> l) → x ∈ l → y ∈ l → f x = f y → x = y.
Proof.
  induction l as [|a l IH]; intros Hnd Hx Hy Heq; [by inversion Hx|].
  rewrite fmap_cons in Hnd. apply NoDup_cons in Hnd as [Hnot Hnd].
  apply elem_of_cons in Hx as [->|Hx]; apply elem_of_cons in Hy as [->|Hy].
  - done.
  - exfalso. apply Hnot. rewrite Heq. by apply list_elem_of_fmap_2.
  - exfalso. apply Hnot. rewrite <- Heq. by apply list_elem_of_fmap_2.
  - by apply IH.
Qed.

(** The eligible rows carry pairwise different [created_at] texts. *)
Lemma distinct_created_at_by_rows now_ts (js : gmap Z job) :
  NoDup ((λ r : row, created_at r.2) <$> Storage.select_eligible now_ts js) →
  distinct_created_at now_ts js.
Proof.
  intros Hnd i i' j j' Hi Hi' Hel Hel' Hsame.
  assert ((i, j) ∈ Storage.select_eligible now_ts js) as Hin
    by by apply elem_of_select_eligible.
  assert ((i', j') ∈ Storage.select_eligible now_ts js) as Hin'
    by by apply elem_of_select_eligible.
  by injection (NoDup_fmap_agree _ _ _ _ Hnd Hin Hin' Hsame).
Qed.

(** Without ties the claim is determined.  When no two eligible jobs have
    the same [created_at] text, the claim does not depend on the order in
    which the engine meets the rows: whatever that order, the same job is
    returned, the one whose [created_at] text is the least among the
    eligible jobs, and the same database is left. *)
Theorem claim_is_determined_without_ties tie tie' now_ts now pid st :
  distinct_created_at now_ts (jobs st) →
  Storage.claim_next_job false tie now_ts now pid st
  = Storage.claim_next_job false tie' now_ts now pid st ∧
  ∀ id j, result_of (Storage.claim_next_job false tie now_ts now pid) st
            = Return (Some (id, j)) →
          ∀ id' j', jobs st !! id' = Some j' →
                    Storage.eligible now_ts j' = true → id' ≠ id →
                    String.ltb (created_at j) (created_at j') = true.
Proof.
  intros Hdistinct. split.
  - rewrite !claim_next_job_run.
    destruct (Storage.fetch_first tie now_ts (jobs st)) as [[i j]|] eqn:Hf;
      destruct (Storage.fetch_first tie' now_ts (jobs st)) as [[i' j']|]
        eqn:Hf'; try done.
    + apply fetch_first_Some in Hf as (Hi & Hel & Hmin).
      apply fetch_first_Some in Hf' as (Hi' & Hel' & Hmin').
      assert (created_at j = created_at j') as Hsame.
      { apply String.leb_antisym; [by apply (Hmin i')|by apply (Hmin' i)]. }
      assert (i = i') as <- by by apply (Hdistinct i i' j j').
      by assert (j = j') as <- by congruence.
    + apply fetch_first_Some in Hf as (Hi & Hel & _).
      by rewrite (fetch_first_None _ _ _ Hf' i j Hi) in Hel.
    + apply fetch_first_Some in Hf' as (Hi' & Hel' & _).
      by rewrite (fetch_first_None _ _ _ Hf i' j' Hi') in Hel'.
  - intros id j. unfold result_of. rewrite claim_next_job_run.
    destruct (Storage.fetch_first tie now_ts (jobs st)) as [[i j0]|] eqn:Hf;
      [|done].
    simpl. intros [= <- <-] id' j' Hj' Hel' Hne.
    apply fetch_first_Some in Hf as (Hi & Hel & Hmin).
    pose proof (Hmin id' j' Hj' Hel') as Hle.
    assert (created_at j0 ≠ created_at j') as Hdiff.
    { intros Hsame. apply Hne. symmetry.
      by apply (Hdistinct i id' j0 j'). }
    unfold Storage.claim_update. simpl.
    unfold String.ltb. unfold String.leb in Hle.
    destruct (String.compare (created_at j0) (created_at j')) eqn:Hcmp;
      [|done|done].
    by apply String.compare_eq_iff in Hcmp.
Qed.

Lemma claim_is_determined_without_ties_witness :
  length (Storage.select_eligible 1704067210 (jobs staggered_store)) = 2%nat ∧
  Storage.claim_next_job false 0 1704067210 "c" 7 staggered_store
  = Storage.claim_next_job false 1 1704067210 "c" 7 staggered_store.
Proof.
  split; [vm_compute; reflexivity|].
  apply (claim_is_determined_without_ties 0 1 1704067210 "c" 7
           staggered_store).
  apply distinct_created_at_by_rows.
  apply (bool_decide_unpack _). vm_compute. exact I.
Defined.

End successive_claims.

(** ** Status counts *)

Section status_counts.

Implicit Types (st : store) (counts : gmap string nat).

Lemma count_row_lookup (r : row) counts s :
  Storage.count_row r counts !! s
  = if decide (state r.2 = s)
    then Some (S (default 0%nat (counts !! s)))
    else counts !! s.
Proof.
  unfold Storage.count_row. rewrite lookup_insert.
  case_decide; [by subst|done].
Qed.

Lemma counted_rows_lookup (rs : list row) s :
  foldr Storage.count_row ∅ rs !! s
  = match length (filter (λ r : row, state r.2 = s) rs) with
    | O => None
    | S n => Some (S n)
    end.
Proof.
  induction rs as [|r rs IH]; [apply lookup_empty|].
  cbn [foldr]. rewrite count_row_lookup, filter_cons.
  case_decide; [|done]. rewrite IH. cbn [length].
  by destruct (length _).
Qed.

Lemma total_count_row (r : row) counts :
  total_count (Storage.count_row r counts) = S (total_count counts).
Proof.
  unfold total_count, Storage.count_row.
  assert (∀ (m : gmap string nat) (j1 j2 : string) (z1 z2 y : nat),
            (z1 + (z2 + y) = z2 + (z1 + y))%nat) as Hcomm by (intros; lia).
  destruct (counts !! state r.2) as [n|] eqn:Hn; simpl.
  - rewrite <- insert_delete_eq.
    rewrite map_fold_insert_L; [|intros; lia|apply lookup_delete_eq].
    rewrite (map_fold_delete_L _ _ (state r.2) n counts); [lia|intros; lia|done].
  - rewrite map_fold_insert_L; [lia|intros; lia|done].
Qed.

(** [state_counts]: a state is a key of the dictionary exactly when some
    job is in that state, its count is the number of those jobs, the
    counts add up to the number of jobs, and the database is unchanged. *)
Theorem state_counts_count_jobs st :
  ∃ counts,
    Storage.state_counts st = (Return counts, st) ∧
    (∀ s, counts !! s = match jobs_in_state s st with
                        | O => None
                        | S n => Some (S n)
                        end) ∧
    total_count counts = size (jobs st).
Proof.
  eexists. split; [reflexivity|]. split.
  - intros s. apply counted_rows_lookup.
  - rewrite <- length_map_to_list.
    induction (map_to_list (jobs st)) as [|r rs IH]; [done|].
    cbn [foldr length]. by rewrite total_count_row, IH.
Qed.

End status_counts.

(** ** The worker registry *)

Section registry.

Implicit Types (st : store).

(** Registering a worker that is not in the registry adds it with its
    start time, raises the count by one, and unregistering it again gives
    back the database as it was; registering a worker that is already
    there changes nothing (the first start time is kept); unregistering a
    worker that is not there changes nothing. *)
Theorem register_worker_once now pid st :
  (workers_meta st !! pid = None →
     workers_meta (db_after (Storage.register_worker now pid) st) !! pid
       = Some now ∧
     result_of Storage.count_workers
       (db_after (Storage.register_worker now pid) st)
       = Return (S (size (workers_meta st))) ∧
     db_after (Storage.unregister_worker pid)
       (db_after (Storage.register_worker now pid) st) = st ∧
     db_after (Storage.unregister_worker pid) st = st) ∧
  (is_Some (workers_meta st !! pid) →
     db_after (Storage.register_worker now pid) st = st).
Proof.
  unfold db_after, result_of. simpl. split.
  - intros Hpid. rewrite Hpid. simpl. split_and!.
    + apply lookup_insert_eq.
    + f_equal. by apply map_size_insert_None.
    + rewrite delete_insert_eq, delete_id by done. by destruct st.
    + rewrite delete_id by done. by destruct st.
  - intros [started Hpid]. rewrite Hpid. by destruct st.
Qed.

Lemma register_worker_once_witness :
  result_of Storage.count_workers registered_store = Return 1%nat ∧
  db_after (Storage.register_worker "2024-06-01T00:00:00.000001Z" 4242)
    registered_store = registered_store.
Proof.
  split.
  - apply (proj1 (register_worker_once "2024-01-01T00:00:00.000001Z" 4242
                    scenario_C_enqueued)).
    vm_compute. reflexivity.
  - apply (proj2 (register_worker_once "2024-06-01T00:00:00.000001Z" 4242
                    registered_store)).
    eexists. vm_compute. reflexivity.
Defined.

End registry.

(** ** The worker loop *)

Section the_loop.

Local Open Scope Z_scope.
Implicit Types (st : store) (j : job).

Lemma pass_keeps_config_and_registry pid base t st :
  config (db_after (Worker.worker_iteration pid base t) st) = config st ∧
  workers_meta (db_after (Worker.worker_iteration pid base t) st)
  = workers_meta st.
Proof.
  destruct (pass_effect pid base t st)
    as [->|(k & j0 & j' & _ & _ & -> & _)]; done.
Qed.

Lemma passes_keep_config_and_registry pid base ts st :
  config (db_after (Worker.passes pid base ts) st) = config st ∧
  workers_meta (db_after (Worker.passes pid base ts) st) = workers_meta st.
Proof.
  revert st. induction ts as [|[t|] ts IH]; intros st; [done| |done].
  unfold db_after. cbn [Worker.passes]. unfold bind.
  destruct (pass_keeps_config_and_registry pid base t st) as [Hc Hw].
  unfold db_after in Hc, Hw.
  destruct (Worker.worker_iteration pid base t st) as [[r|e] st1];
    simpl in *; [|done].
  destruct (IH st1) as [Hc1 Hw1]. unfold db_after in Hc1, Hw1.
  split; congruence.
Qed.

Lemma worker_loop_run float started pid ts st :
  Worker.worker_loop float started pid ts st
  = let st0 := db_after (Storage.register_worker started pid) st in
    let text := configured "backoff_base" "2" st in
    match (if bool_decide (text = "") then Some 2 else float text) with
    | Some base =>
        let p := Worker.passes pid base ts st0 in
        (p.1, Store (jobs p.2) (config p.2) (delete pid (workers_meta p.2)))
    | None =>
        (Raise (ValueError "could not convert string to float"), st0)
    end.
Proof.
  unfold Worker.worker_loop, configured, db_after. cbv zeta.
  unfold bind at 1.
  destruct (Storage.register_worker started pid st) as [[[]|e] st0] eqn:Hreg.
  2: { unfold Storage.register_worker, bind, get_store, ret in Hreg.
       simpl in Hreg. by destruct (workers_meta st !! pid). }
  assert (config st0 = config st) as Hconfig.
  { unfold Storage.register_worker, bind, get_store, ret in Hreg.
    simpl in Hreg. destruct (workers_meta st !! pid); by injection Hreg as <-. }
  cbn [snd]. unfold bind at 1. unfold Storage.get_config at 1.
  unfold bind at 1, get_store, ret. cbn [fst snd]. rewrite Hconfig.
  set (text := match config st !! "backoff_base" with
               | Some value => value
               | None => "2"
               end).
  unfold bind at 1.
  destruct (bool_decide (text = "")).
  - unfold ret, Worker.finally. simpl.
    by destruct (Worker.passes _ _ _ _) as [r st1].
  - destruct (float text) as [base|]; [|done].
    unfold ret, Worker.finally. simpl.
    by destruct (Worker.passes _ _ _ _) as [r st1].
Qed.

(** The loop unregisters once it has its base.  When the configured base
    reads as a whole number (an empty text counts as 2), then whatever
    passes the worker makes, and also when one of them raises, the loop
    leaves the registry as it found it minus the worker's own entry and
    leaves the configuration alone; an exception of a pass is the exception
    of the loop.  When the configured base is a text that [float] refuses,
    the loop raises [ValueError] after it has registered and before it
    enters [try]: no pass is made, the jobs are untouched and the worker
    stays in the registry. *)
Theorem worker_loop_unregisters float started pid ts st :
  let text := configured "backoff_base" "2" st in
  let st0 := db_after (Storage.register_worker started pid) st in
  (∀ base,
     (text = "" ∧ base = 2) ∨ (text ≠ "" ∧ float text = Some base) →
     workers_meta (db_after (Worker.worker_loop float started pid ts) st)
       = delete pid (workers_meta st) ∧
     config (db_after (Worker.worker_loop float started pid ts) st)
       = config st ∧
     result_of (Worker.worker_loop float started pid ts) st
       = result_of (Worker.passes pid base ts) st0) ∧
  (text ≠ "" → float text = None →
     (∃ msg, Worker.worker_loop float started pid ts st
             = (Raise (ValueError msg), st0)) ∧
     is_Some (workers_meta st0 !! pid) ∧
     jobs st0 = jobs st).
Proof.
  cbv zeta. split.
  - intros base Hbase.
    pose proof (worker_loop_run float started pid ts st) as Hrun.
    cbv zeta in Hrun.
    assert ((if bool_decide (configured "backoff_base" "2" st = "")
             then Some 2 else float (configured "backoff_base" "2" st))
            = Some base) as Hsome.
    { destruct Hbase as [[Hempty ->]|[Hfull Hfloat]].
      - by rewrite bool_decide_eq_true_2.
      - by rewrite bool_decide_eq_false_2. }
    rewrite Hsome in Hrun.
    assert (workers_meta (db_after (Storage.register_worker started pid) st)
            = <[pid := default started (workers_meta st !! pid)]>
                (workers_meta st) ∧
            config (db_after (Storage.register_worker started pid) st)
            = config st) as [Hw0 Hc0].
    { unfold db_after. simpl.
      destruct (workers_meta st !! pid) eqn:Hpid; simpl; [|done].
      by rewrite insert_id. }
    set (st0 := db_after (Storage.register_worker started pid) st) in *.
    destruct (passes_keep_config_and_registry pid base ts st0) as [Hc Hw].
    unfold db_after, result_of in *. rewrite Hrun.
    cbn [fst snd workers_meta config].
    rewrite Hc, Hw, Hw0, Hc0. split_and!; [|done..].
    apply delete_insert_eq.
  - intros Hfull Hfloat. split_and!.
    + eexists. rewrite worker_loop_run. cbv zeta.
      by rewrite bool_decide_eq_false_2, Hfloat.
    + unfold db_after. simpl.
      destruct (workers_meta st !! pid) eqn:Hpid; simpl.
      * by rewrite Hpid.
      * by rewrite lookup_insert_eq.
    + unfold db_after. simpl. by destruct (workers_meta st !! pid).
Qed.

Lemma worker_loop_unregisters_witness :
  (workers_meta (db_after (Worker.worker_loop Storage.py_int
                             "2024-01-01T00:00:00.000001Z" 4242
                             [Some failing_tick; None]) tuned_store)
     = delete 4242 (workers_meta tuned_store) ∧
   config (db_after (Worker.worker_loop Storage.py_int
                       "2024-01-01T00:00:00.000001Z" 4242
                       [Some failing_tick; None]) tuned_store)
     = config tuned_store ∧
   result_of (Worker.worker_loop Storage.py_int
                "2024-01-01T00:00:00.000001Z" 4242
                [Some failing_tick; None]) tuned_store
     = result_of (Worker.passes 4242 3 [Some failing_tick; None])
         (db_after (Storage.register_worker "2024-01-01T00:00:00.000001Z"
                      4242) tuned_store)) ∧
  (∃ msg, Worker.worker_loop Storage.py_int "2024-01-01T00:00:00.000001Z"
            4242 [Some failing_tick; None] unparsable_base_store
          = (Raise (ValueError msg),
             db_after (Storage.register_worker "2024-01-01T00:00:00.000001Z"
                         4242) unparsable_base_store)) ∧
  is_Some (workers_meta
             (db_after (Storage.register_worker "2024-01-01T00:00:00.000001Z"
                          4242) unparsable_base_store) !! 4242).
Proof.
  split.
  - apply (proj1 (worker_loop_unregisters Storage.py_int
                    "2024-01-01T00:00:00.000001Z" 4242
                    [Some failing_tick; None] tuned_store) 3).
    right. split; [discriminate|vm_compute; reflexivity].
  - destruct (proj2 (worker_loop_unregisters Storage.py_int
                       "2024-01-01T00:00:00.000001Z" 4242
                       [Some failing_tick; None] unparsable_base_store))
      as (Hraise & Hreg & _).
    + vm_compute. discriminate.
    + vm_compute. reflexivity.
    + split; [exact Hraise|exact Hreg].
Defined.

Lemma passes_stop_at_flag pid base pre post st :
  Worker.passes pid base (pre ++ None :: post)%list st
  = Worker.passes pid base (pre ++ [None])%list st.
Proof.
  revert st. induction pre as [|[t|] pre IH]; intros st; [done| |done].
  cbn [app Worker.passes]. unfold bind.
  destruct (Worker.worker_iteration pid base t st) as [[r|e] st1]; [|done].
  apply IH.
Qed.

(** The stop flag is honoured between jobs: after the pass that finds the
    flag the loop claims nothing more, whatever would have come next. *)
Theorem worker_loop_stops_at_flag float started pid pre post st :
  Worker.worker_loop float started pid (pre ++ None :: post)%list st
  = Worker.worker_loop float started pid (pre ++ [None])%list st.
Proof.
  rewrite !worker_loop_run. cbv zeta.
  destruct (if bool_decide _ then _ else _) as [base|]; [|done].
  by rewrite passes_stop_at_flag.
Qed.

End the_loop.

(** ** Failures *)

Section failures.

Local Open Scope Z_scope.
Implicit Types (st : store) (j : job).

Lemma prefix_append_r (a b c : string) :
  String.prefix b c = true → String.prefix (a +:+ b) (a +:+ c) = true.
Proof.
  intros Hbc. induction a as [|x a IH]; simpl; [done|].
  destruct (ascii_dec x x); [done|congruence].
Qed.













End failures.

(** ** The dead-letter queue *)

Section dead_letters.

Local Open Scope Z_scope.
Implicit Types (st : store) (j : job).

(** [move_to_dead] then [retry]: a job moved to the dead-letter queue can
    be retried at once; the retry leaves it [pending] with no attempts,
    eligible from time 0 on, still carrying the diagnostic it died with
    and what it was submitted with; a second retry then finds no dead job,
    raises [KeyError] and changes nothing. *)
Theorem dead_job_retry_once now id err now' now'' st j :
  jobs st !! id = Some j →
  let dead := db_after (Storage.move_to_dead now id err) st in
  let retried := db_after (Dlq.retry now' id) dead in
  result_of (Dlq.retry now' id) dead = Return tt ∧
  (∃ j', jobs retried !! id = Some j' ∧
         state j' = "pending" ∧ attempts j' = 0 ∧ available_at j' = 0 ∧
         last_error j' = err ∧ worker_pid j' = None ∧
         updated_at j' = now' ∧ same_identity j j' ∧
         ∀ now_ts, 0 ≤ now_ts → Storage.eligible now_ts j' = true) ∧
  Dlq.retry now'' id retried
    = (Raise (KeyError "dead job not found"), retried).
Proof.
  intros Hj. cbv zeta. unfold Dlq.retry, result_of, db_after.
  rewrite move_to_dead_run, Hj. cbn [snd].
  rewrite (alter_present _ _ _ _ Hj).
  rewrite retry_dead_job_run. cbn [jobs with_jobs].
  rewrite lookup_insert_eq. cbn [Storage.result_update state].
  rewrite bool_decide_eq_true_2 by done. cbn [fst snd].
  rewrite alter_insert_eq.
  split_and!; [done| |].
  - eexists. split; [apply lookup_insert_eq|].
    split_and!; try done.
    intros now_ts Hts. apply eligible_spec. by split.
  - rewrite retry_dead_job_run. cbn [jobs with_jobs].
    rewrite lookup_insert_eq. cbn [Storage.retry_update state].
    by rewrite bool_decide_eq_false_2.
Qed.

Lemma dead_job_retry_once_witness :
  ∃ j', jobs (db_after (Dlq.retry "2024-01-01T02:00:00.000001Z" 1)
                (db_after (Storage.move_to_dead "2024-01-01T01:00:00.000001Z"
                             1 (Some "rc=9 out=")) scenario_C_enqueued))
          !! 1 = Some j' ∧
        state j' = "pending" ∧ attempts j' = 0 ∧
        last_error j' = Some "rc=9 out=".
Proof.
  destruct (dead_job_retry_once "2024-01-01T01:00:00.000001Z" 1
              (Some "rc=9 out=") "2024-01-01T02:00:00.000001Z"
              "2024-01-01T03:00:00.000001Z" scenario_C_enqueued
              (Job (Some "x") "true" "pending" 0 3
                 "2024-01-01T00:00:00.000001Z" "2024-01-01T00:00:00.000001Z"
                 0 None None))
    as (_ & (j' & Hj' & Hst & Hatt & _ & Herr & _) & _).
  { vm_compute. reflexivity. }
  exists j'. split_and!; [exact Hj'|exact Hst|exact Hatt|exact Herr].
Defined.

End dead_letters.

(** ** Listings *)

Section listings.

Local Open Scope Z_scope.
Implicit Types (st : store) (j : job) (r : row).









End listings.

(** ** What a pass leaves alone *)

Section pass_frame.

Implicit Types (st : store) (j : job).

(** A pass of the worker loop adds no job and removes none, leaves the
    configuration and the registry alone, and rewrites at most one job,
    which was pending when the pass began and keeps its identity. *)
Theorem pass_rewrites_at_most_one_job pid base t st :
  let st' := db_after (Worker.worker_iteration pid base t) st in
  config st' = config st ∧ workers_meta st' = workers_meta st ∧
  size (jobs st') = size (jobs st) ∧
  ∃ id, (∀ k, k ≠ id → jobs st' !! k = jobs st !! k) ∧
        (jobs st' !! id ≠ jobs st !! id →
         ∃ j j', jobs st !! id = Some j ∧ state j = "pending" ∧
                 jobs st' !! id = Some j' ∧ same_identity j j').
Proof.
  cbv zeta.
  destruct (pass_effect pid base t st)
    as [->|(id & j0 & j' & Hj0 & Hpend & -> & Hrow)].
  { split_and!; try done. exists 0%Z. by split. }
  split_and!; try done.
  - simpl. rewrite map_size_insert_Some; [done|by eexists].
  - exists id. split.
    + intros k Hk. simpl. by rewrite lookup_insert_ne.
    + intros _. exists j0, j'. split_and!; try done.
      * simpl. apply lookup_insert_eq.
      * destruct Hrow as [->|(s & att & err & avail & -> & _)];
          by unfold same_identity.
Qed.

End pass_frame.

(** ** The further properties on the example databases *)


Lemma pass_rewrites_at_most_one_job_witness :
  config scenario_A_resolved = config scenario_A_enqueued ∧
  size (jobs scenario_A_resolved) = size (jobs scenario_A_enqueued).
Proof.
  destruct (pass_rewrites_at_most_one_job 4242 2 scenario_A_tick
              scenario_A_enqueued) as (Hc & _ & Hsize & _).
  split; [exact Hc|exact Hsize].
Defined.
